(** * A shallow embedding of ai-code-review

    Two front ends share one checklist format:
    - [out/extension.js] (compiled from the TypeScript source): the
      interactive reviewer, which loads [.aicodechecklist.json], asks a
      chat-completion endpoint for verdicts and parses its answer;
    - [scripts/aicode-review.js]: the batch heuristic auditor.

    Texts are lists of ASCII characters; JavaScript whitespace ([\s] in a
    regular expression and [String.prototype.trim]) is, on ASCII, the six
    characters space, tab, line feed, vertical tab, form feed and carriage
    return. *)

From Stdlib Require Import List String Ascii Bool ZArith Lia.
Import ListNotations.
Set Warnings "-register-all".

Open Scope list_scope.

(* ------------------------------------------------------------------ *)
(** ** Text utilities *)

Module Text.

Definition text := list ascii.

(** String literals as texts. *)
Definition t (s : string) : text := list_ascii_of_string s.

Definition is_ws (a : ascii) : bool :=
  match nat_of_ascii a with
  | 32 | 9 | 10 | 11 | 12 | 13 => true
  | _ => false
  end.

(** Drop leading whitespace. *)
Fixpoint ltrim (l : text) : text :=
  match l with
  | [] => []
  | x :: r => if is_ws x then ltrim r else l
  end.

(** Drop trailing whitespace. *)
Fixpoint rtrim (l : text) : text :=
  match l with
  | [] => []
  | x :: r =>
      let r' := rtrim r in
      match r' with
      | [] => if is_ws x then [] else [x]
      | _ => x :: r'
      end
  end.

(** [String.prototype.trim]. *)
Definition trim (l : text) : text := rtrim (ltrim l).

Fixpoint is_prefix (p l : text) : bool :=
  match p, l with
  | [], _ => true
  | a :: p', b :: l' => Ascii.eqb a b && is_prefix p' l'
  | _ :: _, [] => false
  end.

(** [String.prototype.startsWith]. *)
Definition startsWith (l p : text) : bool := is_prefix p l.

(** [String.prototype.includes]. *)
Fixpoint includes (l p : text) : bool :=
  is_prefix p l ||
  match l with
  | [] => false
  | _ :: r => includes r p
  end.

Definition infix (y x : text) : Prop := exists a b, x = a ++ y ++ b.

End Text.
Import Text.

(* ------------------------------------------------------------------ *)
(** ** The interactive reviewer (out/extension.js) *)

Module Extension.

Definition fence : text := t "```".
Definition json_fence : text := t "```json".

(** [s.replace(/^```json\s*/, '')] once [s.startsWith('```json')] holds
    (and likewise for [/^```\s*/]): the anchored regular expression matches
    the marker and all the whitespace after it. *)
Definition drop_open (marker s : text) : text :=
  ltrim (skipn (List.length marker) s).

(** Does the regular expression [/\s*```$/] match the whole of [l]? *)
Fixpoint ws_then_fence (l : text) : bool :=
  (if list_eq_dec ascii_dec l fence then true else false) ||
  match l with
  | [] => false
  | c :: r => is_ws c && ws_then_fence r
  end.

(** [s.replace(/\s*```$/, '')]: the leftmost position from which the
    regular expression matches the rest of the text; everything from there
    on is removed.  Without a match the text is unchanged. *)
Fixpoint drop_close (l : text) : text :=
  if ws_then_fence l then []
  else match l with
       | [] => []
       | c :: r => c :: drop_close r
       end.

(** runLLMReview, lines 130-136: extract JSON from a potential markdown
    code block. *)
Definition strip_fence (content : text) : text :=
  let jsonString := trim content in
  if startsWith jsonString json_fence then
    drop_close (drop_open json_fence jsonString)
  else if startsWith jsonString fence then
    drop_close (drop_open fence jsonString)
  else jsonString.

Section Parse.

(** [JSON.parse], abstracted: [None] when it throws. *)
Variable V : Type.
Variable json_parse : text -> option V.

(** runLLMReview, lines 128-142: strip the fence and parse; on failure
    throw an error carrying the raw completion [content]. *)
Definition parse_completion (content : text) : V + text :=
  match json_parse (strip_fence content) with
  | Some parsed => inl parsed
  | None => inr (t "Failed to parse LLM JSON: " ++ content)
  end.

(** The instruction sent to the judge (lines 81-107): the source text and
    the serialized checklist, embedded verbatim. *)
Definition dq : text := [ascii_of_nat 34].
Definition q (s : string) : text := dq ++ t s ++ dq.

Definition build_prompt (code checklist_json : text) : text :=
  t "You are a senior software engineer doing a strict code review.

Here is the code to review:
---
" ++ code ++ t "
---

Here is a JSON checklist of review items:
---
" ++ checklist_json ++ t "
---

For EACH checklist item, decide:
- status: " ++ q "Pass" ++ t ", " ++ q "Fail" ++ t ", or " ++ q "NeedsAttention" ++ t "
- reason: short explanation (one or two sentences)

Return ONLY a JSON array of objects like:
[
  {
    " ++ q "id" ++ t ": " ++ q "func_req" ++ t ",
    " ++ q "status" ++ t ": " ++ q "Pass" ++ t ",
    " ++ q "reason" ++ t ": " ++ q "Explanation." ++ t ",
    " ++ q "category" ++ t ": " ++ q "Functionality & Logic" ++ t ",
    " ++ q "priority" ++ t ": " ++ q "Critical" ++ t "
  }
]
".

(** One POST to the chat-completion endpoint. *)
Record request := {
  req_url : text;
  req_authorization : text;
  req_prompt : text
}.

(** What the code reads from the answer: [response.ok], the status and
    raw body used in the error message, and
    [data.choices[0].message.content]. *)
Record response := {
  resp_ok : bool;
  resp_status : text;
  resp_body : text;
  resp_content : text
}.

(** [if (!apiKey)]: an unset or empty variable. *)
Definition credential_missing (apiKey : option text) : bool :=
  match apiKey with
  | None | Some [] => true
  | Some _ => false
  end.

Definition missing_key_error : text :=
  t "OPENAI_API_KEY environment variable not set.".

(** runLLMReview: the requests issued, in order, and the outcome
    ([inl] the parsed verdicts, [inr] the message of the thrown error).
    [fetch] is the network, answering each request. *)
Definition runLLMReview (apiKey : option text) (code checklist_json : text)
    (fetch : request -> response) : list request * (V + text) :=
  match apiKey with
  | None | Some [] => ([], inr missing_key_error)
  | Some key =>
      let req := {| req_url := t "https://api.openai.com/v1/chat/completions";
                    req_authorization := t "Bearer " ++ key;
                    req_prompt := build_prompt code checklist_json |} in
      let response := fetch req in
      if negb (resp_ok response) then
        ([req], inr (t "OpenAI API error: " ++ resp_status response ++ t " "
                     ++ resp_body response))
      else ([req], parse_completion (resp_content response))
  end.

End Parse.

End Extension.

(* ------------------------------------------------------------------ *)
(** ** The data model (src/unnamed/part_000, the TypeScript source) *)

Module Model.

Record ChecklistItem := { item_id : string; description : string }.

Record ChecklistCategory := {
  cat_name : string;
  cat_priority : option string;
  items : list ChecklistItem
}.

Record ChecklistFile := { version : string; categories : list ChecklistCategory }.

Inductive Status := Pass | Fail | NeedsAttention.

Record Verdict := { vid : string; vstatus : Status; vreason : string }.

(** The checklist file as found on disk: its text either parses (to a
    document of the expected shape) or [JSON.parse] throws. *)
Inductive ChecklistText :=
  | CTValid (doc : ChecklistFile)
  | CTMalformed.

Definition doc_ids (doc : ChecklistFile) : list string :=
  flat_map (fun c => map item_id (items c)) (categories doc).

(** [checklist.categories.some(c=>c.items.some(i=>i.id===x))] *)
Definition has_id (doc : ChecklistFile) (x : string) : bool :=
  existsb (fun c => existsb (fun i => String.eqb (item_id i) x) (items c))
    (categories doc).

End Model.
Import Model.

(* ------------------------------------------------------------------ *)
(** ** Loading the checklist in the interactive reviewer *)

Module Loader.

(** loadChecklist (extension.js, lines 58-74).  [folders] are the
    workspace folders; [read root] is the checklist file under [root]
    ([None] when [readFile] rejects).  Both the read and [JSON.parse] sit
    in the [try]; the [catch] answers [null]. *)
Definition loadChecklist (folders : list string)
    (read : string -> option ChecklistText) : option ChecklistFile :=
  match folders with
  | [] => None
  | root :: _ =>
      match read root with
      | None => None
      | Some CTMalformed => None
      | Some (CTValid doc) => Some doc
      end
  end.

End Loader.

(* ------------------------------------------------------------------ *)
(** ** The review command (extension.js, activate, lines 9-57) *)

Module Handler.
Import Extension Loader.

(** The active editor's document: [document.getText()] and
    [document.uri.fsPath]. *)
Record document := { getText : text; fsPath : text }.

(** A field value as [${...}] converts it: its text, or a TypeError
    (an object whose [toString] and [valueOf] give no primitive, a
    Symbol). *)
Inductive rendering := Renders (s : text) | Throws.

(** An element of the judge's answer as the template literal of line 47
    sees it: each field by its conversion, with [category] and
    [priority] [None] when null or undefined (where [??] substitutes). *)
Record result_item := {
  r_status : rendering;
  r_category : option rendering;
  r_priority : option rendering;
  r_id : rendering;
  r_reason : rendering
}.

(** What [for (const r of results)] sees of the parsed answer: a value
    that is not iterable, or the elements it iterates, [None] for a null or
    undefined element (reading [r.status] on it throws). *)
Inductive answer :=
  | NotIterable
  | Elements (l : list (option result_item)).

(** [showInformationMessage] and [showErrorMessage]. *)
Inductive notice := Info (msg : text) | ShowError (msg : text).

(** What one run of the command shows: its notifications, the lines of
    the output channel it creates ([[]] when it creates none) and the
    requests sent to the endpoint. *)
Record ui := { notices : list notice; channel : list text; requests : list request }.

Definition field (f : rendering) : option text :=
  match f with Renders x => Some x | Throws => None end.

(** [x ?? d] *)
Definition or_else (o : option rendering) (d : text) : option text :=
  match o with Some x => field x | None => Some d end.

(** Line 47 ([None]: a conversion throws). *)
Definition render (r : result_item) : option text :=
  match field (r_status r), or_else (r_category r) (t "Unknown"),
        or_else (r_priority r) (t "-"), field (r_id r), field (r_reason r) with
  | Some st, Some cat, Some pri, Some id, Some reason =>
      Some (t "- [" ++ st ++ t "] (" ++ cat ++ t " / " ++ pri ++ t ") " ++ id ++ t ": " ++ reason)
  | _, _, _, _, _ => None
  end.

(** Why the loop of lines 46-48 threw: a null or undefined element, or a
    field the template literal cannot convert. *)
Inductive loop_error := NullElement | Unconvertible.

(** The loop of lines 46-48: the lines appended, and the TypeError that
    ended it, if any. *)
Fixpoint render_results (l : list (option result_item)) : list text * option loop_error :=
  match l with
  | [] => ([], None)
  | None :: _ => ([], Some NullElement)
  | Some r :: rest =>
      match render r with
      | None => ([], Some Unconvertible)
      | Some line => let (ls, err) := render_results rest in (line :: ls, err)
      end
  end.

Definition no_editor : text := t "No active editor".
Definition no_checklist : text := t ".aicodechecklist.json not found in workspace root".
Definition completed : text := t "AI checklist review completed.".
Definition review_failed : text := t "Failed to run LLM review. See output for details.".
Definition results_title : text := t "AI Checklist Results:".

(** Lines 29-39. *)
Definition header (filePath code checklist_json : text) : list text :=
  [t "AI Checklist Review"; t "==================="; t "File: " ++ filePath; [];
   t "Loaded checklist:"; checklist_json; [];
   t "Code preview (first 200 chars):"; firstn 200 code; [];
   t "Running LLM review..."].

Section Command.

(** [JSON.stringify(checklist, null, 2)], used by both the channel and
    the prompt. *)
Variable stringify : ChecklistFile -> text.
(** [JSON.parse] of the stripped completion ([None]: it throws). *)
Variable json_parse : text -> option answer.
(** [String(err)] of the TypeError the loop throws on a value that is
    not iterable, on a null or undefined element, and on a field it
    cannot convert to a string. *)
Variable not_iterable_error null_element_error conversion_error : text.

(** The command [ai-code-review.runChecklist] (lines 11-54).  The [catch]
    of line 50 reports [String(err)]; an [Error] built by runLLMReview
    prints as [Error: ] followed by its message. *)
Definition runChecklist (editor : option document) (folders : list string)
    (read : string -> option ChecklistText) (apiKey : option text)
    (fetch : request -> response) : ui :=
  match editor with
  | None => {| notices := [Info no_editor]; channel := []; requests := [] |}
  | Some d =>
      match loadChecklist folders read with
      | None => {| notices := [ShowError no_checklist]; channel := []; requests := [] |}
      | Some checklist =>
          let hdr := header (fsPath d) (getText d) (stringify checklist) in
          let (reqs, out) :=
            runLLMReview answer json_parse apiKey (getText d) (stringify checklist) fetch in
          let failed lines err :=
            {| notices := [ShowError review_failed];
               channel := hdr ++ lines ++ [t "LLM error: " ++ err];
               requests := reqs |} in
          match out with
          | inr msg => failed [] (t "Error: " ++ msg)
          | inl NotIterable => failed [[]; results_title] not_iterable_error
          | inl (Elements l) =>
              match render_results l with
              | (ls, Some NullElement) => failed ([[]; results_title] ++ ls) null_element_error
              | (ls, Some Unconvertible) => failed ([[]; results_title] ++ ls) conversion_error
              | (ls, None) =>
                  {| notices := [Info completed];
                     channel := hdr ++ [[]; results_title] ++ ls;
                     requests := reqs |}
              end
          end
      end
  end.

End Command.

End Handler.

(* ------------------------------------------------------------------ *)
(** ** The batch heuristic auditor (scripts/aicode-review.js) *)

Module Batch.

(** JSON values as [JSON.parse] returns them (numbers kept integral). *)
Inductive jval :=
  | JNull
  | JBool (b : bool)
  | JNum (n : Z)
  | JStr (s : string)
  | JArr (l : list jval)
  | JObj (fields : list (string * jval)).

(** Property access [o.k]; [None] is [undefined].  [JSON.parse] keeps the
    last of duplicated keys. *)
Definition get (o : jval) (k : string) : option jval :=
  match o with
  | JObj fs =>
      match find (fun kv => String.eqb (fst kv) k) (rev fs) with
      | Some kv => Some (snd kv)
      | None => None
      end
  | _ => None
  end.

Definition get_opt (o : option jval) (k : string) : option jval :=
  match o with Some v => get v k | None => None end.

(** JavaScript truthiness; [a && b] and [a || b] in a condition are
    truthy exactly when [truthy a && truthy b], [truthy a || truthy b]. *)
Definition truthy (v : option jval) : bool :=
  match v with
  | None | Some JNull => false
  | Some (JBool b) => b
  | Some (JNum n) => negb (Z.eqb n 0)
  | Some (JStr s) => negb (String.eqb s "")
  | Some (JArr _) | Some (JObj _) => true
  end.

(** A directory tree as [fs] sees it: a file, whose content is [None]
    when [readFileSync] throws on it; a directory and its entries in
    [readdirSync] order; an entry on which [statSync] throws (a dangling
    symbolic link, a name that vanished meanwhile); a directory on which
    [readdirSync] throws (one without read permission). *)
Inductive node :=
  | File (name : string) (content : option string)
  | Dir (name : string) (children : list node)
  | Unstatable (name : string)
  | Unlistable (name : string).

Definition node_name (n : node) : string :=
  match n with File f _ | Dir f _ | Unstatable f | Unlistable f => f end.

(** [path.join(dir, f)] for a normalised [dir] and a plain entry name. *)
Definition join (dir f : string) : string :=
  if String.eqb dir "/" then (dir ++ f)%string else (dir ++ "/" ++ f)%string.

(** walk (lines 8-16): depth first, in directory order, [cb] on every
    non-directory.  Neither [statSync] nor [readdirSync] is guarded, so an
    entry on which one of them throws ends the walk: the result is the
    files given to [cb] up to that point, and whether it threw. *)
Fixpoint walk_seq (w : node -> list (string * option string) * bool) (l : list node)
  : list (string * option string) * bool :=
  match l with
  | [] => ([], false)
  | x :: xs =>
      let (a, threw) := w x in
      if threw then (a, true)
      else let (b, threw') := walk_seq w xs in (a ++ b, threw')
  end.

Fixpoint walk_node (dir : string) (n : node) : list (string * option string) * bool :=
  match n with
  | File f c => ([(join dir f, c)], false)
  | Dir f ch => walk_seq (walk_node (join dir f)) ch
  | Unstatable _ | Unlistable _ => ([], true)
  end.

(** [walk(root, cb)] over the entries of the working directory, which
    exists and can be listed since the script was started in it. *)
Definition walk (dir : string) (entries : list node) : list (string * option string) * bool :=
  walk_seq (walk_node dir) entries.

(** package.json when it exists: the value [readJSON] returns, or a file
    on which [readJSON] throws (unreadable, or not JSON). *)
Inductive PackageText :=
  | PTValid (v : jval)
  | PTThrows.

(** The process: the working directory [root], its entries, the checklist
    file ([None]: absent), package.json ([None]: absent), and whether each
    command run by [execSync] exits zero ([true]) or throws ([false]:
    non-zero exit or timeout). *)
Record env := {
  root : string;
  tree : list node;
  checklist_file : option ChecklistText;
  package_json : option PackageText;
  run_ok : string -> bool
}.

Definition stat_ok (n : node) : bool :=
  match n with Unstatable _ => false | _ => true end.

(** [exists(path.join(root, name))] for an entry of the root:
    [existsSync] answers false where [statSync] would throw. *)
Definition exists_top (e : env) (name : string) : bool :=
  existsb (fun n => String.eqb (node_name n) name && stat_ok n) (tree e).

(** [packageObj = exists(packageJson) ? readJSON(packageJson) : null]
    (line 41).  When [readJSON] throws, the script ends there (see
    [audit]) and no check reads [packageObj]; the [null] given for that
    case is never observed. *)
Definition packageObj (e : env) : option jval :=
  match package_json e with Some (PTValid v) => Some v | _ => Some JNull end.

(** Line 41 throws. *)
Definition package_throws (e : env) : bool :=
  match package_json e with Some PTThrows => true | _ => false end.

Record st := { results : list Verdict; hasFail : bool; ran : list string }.

Definition init : st := {| results := []; hasFail := false; ran := [] |}.

Definition fail (id reason : string) (s : st) : st :=
  {| results := results s ++ [{| vid := id; vstatus := Fail; vreason := reason |}];
     hasFail := true; ran := ran s |}.
Definition pass (id reason : string) (s : st) : st :=
  {| results := results s ++ [{| vid := id; vstatus := Pass; vreason := reason |}];
     hasFail := hasFail s; ran := ran s |}.
Definition na (id reason : string) (s : st) : st :=
  {| results := results s ++ [{| vid := id; vstatus := NeedsAttention; vreason := reason |}];
     hasFail := hasFail s; ran := ran s |}.

(** [child.execSync(cmd, ...)]: recorded, then its outcome. *)
Definition exec (e : env) (cmd : string) (s : st) : bool * st :=
  (run_ok e cmd, {| results := results s; hasFail := hasFail s; ran := ran s ++ [cmd] |}).

(** test_exists (lines 43-52) *)
Definition hasTests (e : env) : bool :=
  exists_top e "test" || exists_top e "tests" || exists_top e "__tests__" ||
  (truthy (packageObj e) &&
   ((truthy (get_opt (packageObj e) "scripts") &&
     truthy (get_opt (get_opt (packageObj e) "scripts") "test")) ||
    (truthy (get_opt (packageObj e) "devDependencies") &&
     truthy (get_opt (get_opt (packageObj e) "devDependencies") "jest")))).

Definition check_test_exists (e : env) (doc : ChecklistFile) (s : st) : st :=
  if has_id doc "test_exists" then
    if hasTests e then pass "test_exists" "Tests folder or test script detected." s
    else fail "test_exists" "No tests detected (no test folder or test script)." s
  else s.

(** test_checks (lines 54-75) *)
Definition check_test_checks (e : env) (doc : ChecklistFile) (s : st) : st :=
  if has_id doc "test_checks" then
    let pkg := packageObj e in
    let scripts := get_opt pkg "scripts" in
    if truthy pkg && truthy scripts &&
       (truthy (get_opt scripts "lint") || truthy (get_opt scripts "test") ||
        truthy (get_opt scripts "build")) then
      if truthy (get_opt scripts "lint") then
        let (ok, s1) := exec e "npm run lint --silent" s in
        if ok then pass "test_checks" "Lint passed." s1
        else fail "test_checks" "Lint/tests failed (see job logs)." s1
      else if truthy (get_opt scripts "test") then
        let (ok, s1) := exec e "npm test --silent" s in
        if ok then pass "test_checks" "Tests passed." s1
        else fail "test_checks" "Lint/tests failed (see job logs)." s1
      else na "test_checks" "No lint/test script found to run." s
    else na "test_checks" "No package.json scripts to run (skipped)." s
  else s.

(** sec_secrets (lines 77-93) *)

Definition lower_ascii (a : ascii) : ascii :=
  let n := nat_of_ascii a in
  if (65 <=? n) && (n <=? 90) then ascii_of_nat (n + 32) else a.

Definition lower (s : string) : text := map lower_ascii (list_ascii_of_string s).

(** The alternatives of
    [/(api[_-]?key|secret|password|passwd|aws_secret|aws_access|SECRET_KEY|PRIVATE_KEY|TOKEN)/i];
    [api[_-]?key] stands for three words. *)
Definition secret_alternatives : list string :=
  ["api_key"; "api-key"; "apikey"; "secret"; "password"; "passwd";
   "aws_secret"; "aws_access"; "SECRET_KEY"; "PRIVATE_KEY"; "TOKEN"]%string.

(** [re.test(txt)] with the [i] flag: some alternative occurs in the text,
    ASCII letters compared without case. *)
Definition secret_test (txt : string) : bool :=
  existsb (fun p => includes (lower txt) (lower p)) secret_alternatives.

(** [path.basename]: the text after the last separator. *)
Fixpoint after_last_slash (l acc : text) : text :=
  match l with
  | [] => rev acc
  | c :: r => if Ascii.eqb c "/"%char then after_last_slash r [] else after_last_slash r (c :: acc)
  end.

(** Index of the last dot. *)
Fixpoint last_dot (l : text) (i : nat) (acc : option nat) : option nat :=
  match l with
  | [] => acc
  | c :: r => last_dot r (S i) (if Ascii.eqb c "."%char then Some i else acc)
  end.

(** [path.extname]: from the last dot of the base name, unless that dot
    starts the name (or the name is [..]). *)
Definition extname (fp : string) : string :=
  let b := after_last_slash (list_ascii_of_string fp) [] in
  match last_dot b 0 None with
  | None | Some 0 => ""%string
  | Some i => if list_eq_dec ascii_dec b (t "..") then ""%string
              else string_of_list_ascii (skipn i b)
  end.

Definition skipped_exts : list string :=
  [".md"; ".png"; ".jpg"; ".jpeg"; ".gif"; ".ico"; ".bin"]%string.

(** [fp.includes('node_modules') || fp.includes('.git')] *)
Definition excluded_path (fp : string) : bool :=
  includes (t fp) (t "node_modules") || includes (t fp) (t ".git").

(** The callback given to walk: is [fp] pushed on [suspicious]? *)
Definition flagged (f : string * option string) : bool :=
  let (fp, c) := f in
  if excluded_path fp then false
  else if existsb (String.eqb (string_of_list_ascii (lower (extname fp)))) skipped_exts
  then false
  else match c with
       | None => false
       | Some txt => secret_test txt
       end.

(** The paths pushed on [suspicious] before the walk returns or throws. *)
Definition suspicious (e : env) : list string :=
  map fst (filter flagged (fst (walk (root e) (tree e)))).

(** Line 80 throws out of the script. *)
Definition walk_throws (e : env) : bool := snd (walk (root e) (tree e)).

(** The state after the check, and whether it threw. *)
Definition check_sec_secrets (e : env) (doc : ChecklistFile) (s : st) : st * bool :=
  if has_id doc "sec_secrets" then
    if walk_throws e then (s, true)
    else
      match suspicious e with
      | _ :: _ =>
          (fail "sec_secrets" ("Potential secrets found in files: " ++
                               String.concat ", " (firstn 5 (suspicious e)))%string s, false)
      | [] => (pass "sec_secrets" "No obvious hardcoded secrets found." s, false)
      end
  else (s, false).

(** read_format (lines 95-100) *)
Definition hasFormat (e : env) : bool :=
  exists_top e ".eslintrc" || exists_top e ".eslintrc.js" || exists_top e ".prettierrc" ||
  (truthy (packageObj e) &&
   (truthy (get_opt (packageObj e) "devDependencies") &&
    (truthy (get_opt (get_opt (packageObj e) "devDependencies") "eslint") ||
     truthy (get_opt (get_opt (packageObj e) "devDependencies") "prettier")))).

Definition check_read_format (e : env) (doc : ChecklistFile) (s : st) : st :=
  if has_id doc "read_format" then
    if hasFormat e then pass "read_format" "Formatter/linter config detected." s
    else na "read_format" "No linter/formatter config found (recommend adding ESLint/Prettier)." s
  else s.

(** The default loop (lines 102-108). *)
Definition recognized : list string :=
  ["test_exists"; "test_checks"; "sec_secrets"; "read_format"]%string.

Definition manual_reason : string :=
  "Automated check not available; manual review recommended.".

Definition fallback_item (s : st) (i : ChecklistItem) : st :=
  if existsb (String.eqb (item_id i)) recognized then s
  else if existsb (fun r => String.eqb (vid r) (item_id i)) (results s) then s
  else na (item_id i) manual_reason s.

Definition fallback (doc : ChecklistFile) (s : st) : st :=
  fold_left (fun s c => fold_left fallback_item (items c) s) (categories doc) s.

(** Lines 26-108: the state reached, and whether an exception escaped
    (line 41 or the walk of line 80). *)
Definition audit (e : env) (doc : ChecklistFile) : st * bool :=
  if package_throws e then (init, true)
  else
    let (s3, threw) :=
      check_sec_secrets e doc (check_test_checks e doc (check_test_exists e doc init)) in
    if threw then (s3, true)
    else (fallback doc (check_read_format e doc s3), false).

(** How the process ends: [process.exit(code)] after printing the
    verdicts ([None]: nothing printed), or an uncaught exception, which
    Node reports and turns into exit code 1. *)
Inductive outcome :=
  | Exit (code : Z) (printed : option (list Verdict))
  | Uncaught (error : string).

Definition exit_code (o : outcome) : Z :=
  match o with Exit c _ => c | Uncaught _ => 1 end.

(** The script (lines 18-24 and 110-118). *)
Definition main (e : env) : outcome :=
  match checklist_file e with
  | None => Exit 2 None
  | Some CTMalformed => Uncaught "SyntaxError"
  | Some (CTValid doc) =>
      let (s, threw) := audit e doc in
      if threw then Uncaught "Error"
      else Exit (if hasFail s then 1 else 0) (Some (results s))
  end.

(** Views used to state properties of a run. *)

(** The verdicts carrying id [k]. *)
Definition verdicts_for (k : string) (rs : list Verdict) : list Verdict :=
  filter (fun v => String.eqb (vid v) k) rs.

(** [packageObj.scripts.<name>] is a truthy value. *)
Definition script_declared (e : env) (name : string) : bool :=
  truthy (get_opt (get_opt (packageObj e) "scripts") name).

(** [packageObj.devDependencies.<name>] is a truthy value. *)
Definition dev_declared (e : env) (name : string) : bool :=
  truthy (get_opt (get_opt (packageObj e) "devDependencies") name).


(** The same process over another directory tree. *)
Definition with_tree (e : env) (ts : list node) : env :=
  {| root := root e; tree := ts; checklist_file := checklist_file e;
     package_json := package_json e; run_ok := run_ok e |}.

(** The ids of [l] not in [seen], each at its first occurrence. *)
Fixpoint first_occurrences (seen l : list string) : list string :=
  match l with
  | [] => []
  | x :: r =>
      if existsb (String.eqb x) seen then first_occurrences seen r
      else x :: first_occurrences (x :: seen) r
  end.

(** Induction over directory trees, through the children of a directory. *)
Fixpoint node_ind' (P : node -> Prop) (HF : forall f c, P (File f c))
    (HD : forall f ch, Forall P ch -> P (Dir f ch))
    (HU : forall f, P (Unstatable f)) (HL : forall f, P (Unlistable f)) (n : node) : P n :=
  match n with
  | File f c => HF f c
  | Unstatable f => HU f
  | Unlistable f => HL f
  | Dir f ch =>
      HD f ch ((fix go (l : list node) : Forall P l :=
                  match l with
                  | [] => Forall_nil P
                  | x :: xs => Forall_cons x (node_ind' P HF HD HU HL x) (go xs)
                  end) ch)
  end.

End Batch.

(* ------------------------------------------------------------------ *)
(** ** Concrete runs *)

Module Scenarios.
Import Batch.
Local Open Scope string_scope.

Definition item (id : string) : ChecklistItem := {| item_id := id; description := "x" |}.

Definition one_category (ids : list string) : ChecklistFile :=
  {| version := "1";
     categories := [{| cat_name := "General"; cat_priority := Some "High";
                       items := map item ids |}] |}.

Definition doc_all : ChecklistFile :=
  one_category ["test_exists"; "test_checks"; "sec_secrets"; "read_format"; "custom_x"].

(** A repository with a tests folder, a lint script that fails, and a
    password in a source file. *)
Definition env_demo : env :=
  {| root := "/repo";
     tree := [Dir "tests" []; File ".gitignore" (Some "TOKEN");
              Dir "src" [File "index.js" (Some "const password = 1;")]];
     checklist_file := Some (CTValid doc_all);
     package_json := Some (PTValid (JObj [("scripts", JObj [("lint", JStr "eslint .")])]));
     run_ok := fun _ => false |}.



Definition env_missing : env :=
  {| root := "/repo"; tree := []; checklist_file := None;
     package_json := None; run_ok := fun _ => true |}.

Definition env_malformed : env :=
  {| root := "/repo"; tree := []; checklist_file := Some CTMalformed;
     package_json := None; run_ok := fun _ => true |}.


(** A package.json [{] and a checklist asking only for test_checks. *)
Definition env_badpkg_tc : env :=
  {| root := "/repo"; tree := []; checklist_file := Some (CTValid (one_category ["test_checks"]));
     package_json := Some PTThrows; run_ok := fun _ => true |}.



(** A checkout in a directory whose name ends in [.git], holding a
    password in a source file. *)
Definition env_git_root : env :=
  {| root := "/home/dev/app.git";
     tree := [Dir "src" [File "index.js" (Some "const password = 1;")]];
     checklist_file := Some (CTValid (one_category ["sec_secrets"]));
     package_json := None;
     run_ok := fun _ => true |}.

(** An editor, a workspace folder holding [doc_all] and a credential,
    for the review command. *)
Definition editor_doc : Handler.document :=
  {| Handler.getText := t "const x = 1;"; Handler.fsPath := t "/w/a.js" |}.

Definition read_doc_all (_ : string) : option ChecklistText := Some (CTValid doc_all).

Definition stringify_stub (_ : ChecklistFile) : Text.text := t "{}".

Definition verdict_item : Handler.result_item :=
  {| Handler.r_status := Handler.Renders (t "Pass"); Handler.r_category := None;
     Handler.r_priority := None; Handler.r_id := Handler.Renders (t "func_req");
     Handler.r_reason := Handler.Renders (t "ok") |}.

(** The line printed for [verdict_item]. *)
Definition verdict_line : Text.text := t "- [Pass] (Unknown / -) func_req: ok".

(** A judge answering [verdict_item] then [null]. *)
Definition parse_null_tail (_ : Text.text) : option Handler.answer :=
  Some (Handler.Elements [Some verdict_item; None]).

(** The element [{"id":"a","status":{"toString":1},"reason":"r"}]. *)
Definition unprintable_item : Handler.result_item :=
  {| Handler.r_status := Handler.Throws; Handler.r_category := None;
     Handler.r_priority := None; Handler.r_id := Handler.Renders (t "a");
     Handler.r_reason := Handler.Renders (t "r") |}.

(** A judge answering [verdict_item] then [unprintable_item]. *)
Definition parse_unprintable (_ : Text.text) : option Handler.answer :=
  Some (Handler.Elements [Some verdict_item; Some unprintable_item]).

(** The endpoint answering every request with the given status. *)
Definition answer_with (ok : bool) (status : string) : Extension.request -> Extension.response :=
  fun _ => {| Extension.resp_ok := ok; Extension.resp_status := t status;
              Extension.resp_body := t "body"; Extension.resp_content := t "[]" |}.

End Scenarios.

(* ================================================================== *)
(** * Proofs *)

Import Batch.

Module BatchFacts.

Definition ids (s : st) : list string := map vid (results s).

Definition is_fail (v : Verdict) : bool :=
  match vstatus v with Fail => true | _ => false end.

(** A step of the script: it appends [added] to the verdicts and keeps
    [hasFail] in step with them. *)
Definition appends (s s' : st) (added : list Verdict) : Prop :=
  results s' = results s ++ added /\
  hasFail s' = hasFail s || existsb is_fail added.

Ltac split_ifs :=
  repeat match goal with
         | |- context [if ?b then _ else _] => destruct b eqn:?
         | |- context [match ?l with [] => _ | _ :: _ => _ end] => destruct l eqn:?
         end.

Definition fallback_verdict (v : Verdict) : Prop :=
  vstatus v = NeedsAttention /\ vreason v = manual_reason /\ ~ In (vid v) recognized.

(** The secret scan once the walk has returned. *)
Definition sec_step (e : env) (doc : ChecklistFile) (s : st) : st :=
  if has_id doc "sec_secrets" then
    match suspicious e with
    | _ :: _ =>
        fail "sec_secrets" ("Potential secrets found in files: " ++
                            String.concat ", " (firstn 5 (suspicious e)))%string s
    | [] => pass "sec_secrets" "No obvious hardcoded secrets found." s
    end
  else s.

Definition checked (e : env) (doc : ChecklistFile) : st :=
  check_read_format e doc
    (sec_step e doc (check_test_checks e doc (check_test_exists e doc init))).

(** The state of a run that reaches line 110. *)
Definition completed (e : env) (doc : ChecklistFile) : st := fallback doc (checked e doc).

(** An exception escapes the checks: line 41, or the walk of line 80. *)
Definition crashes (e : env) (doc : ChecklistFile) : bool :=
  package_throws e || (has_id doc "sec_secrets" && walk_throws e).

Definition mkv (id : string) (x : Status) (reason : string) : Verdict :=
  {| vid := id; vstatus := x; vreason := reason |}.

Definition test_exists_verdict (e : env) : Verdict :=
  if hasTests e then mkv "test_exists" Pass "Tests folder or test script detected."
  else mkv "test_exists" Fail "No tests detected (no test folder or test script).".

Definition test_checks_guard (e : env) : bool :=
  let pkg := packageObj e in
  let scripts := get_opt pkg "scripts" in
  truthy pkg && truthy scripts &&
  (truthy (get_opt scripts "lint") || truthy (get_opt scripts "test") ||
   truthy (get_opt scripts "build")).

Definition test_checks_verdict (e : env) : Verdict :=
  let scripts := get_opt (packageObj e) "scripts" in
  if test_checks_guard e then
    if truthy (get_opt scripts "lint") then
      if run_ok e "npm run lint --silent" then mkv "test_checks" Pass "Lint passed."
      else mkv "test_checks" Fail "Lint/tests failed (see job logs)."
    else if truthy (get_opt scripts "test") then
      if run_ok e "npm test --silent" then mkv "test_checks" Pass "Tests passed."
      else mkv "test_checks" Fail "Lint/tests failed (see job logs)."
    else mkv "test_checks" NeedsAttention "No lint/test script found to run."
  else mkv "test_checks" NeedsAttention "No package.json scripts to run (skipped).".

Definition test_checks_ran (e : env) : list string :=
  let scripts := get_opt (packageObj e) "scripts" in
  if test_checks_guard e then
    if truthy (get_opt scripts "lint") then ["npm run lint --silent"%string]
    else if truthy (get_opt scripts "test") then ["npm test --silent"%string]
    else []
  else [].

Definition sec_secrets_verdict (e : env) : Verdict :=
  match suspicious e with
  | _ :: _ =>
      mkv "sec_secrets" Fail ("Potential secrets found in files: " ++
                              String.concat ", " (firstn 5 (suspicious e)))%string
  | [] => mkv "sec_secrets" Pass "No obvious hardcoded secrets found."
  end.

Definition read_format_verdict (e : env) : Verdict :=
  if hasFormat e then mkv "read_format" Pass "Formatter/linter config detected."
  else mkv "read_format" NeedsAttention
         "No linter/formatter config found (recommend adding ESLint/Prettier).".

Definition opt_verdict (doc : ChecklistFile) (k : string) (v : Verdict) : list Verdict :=
  if has_id doc k then [v] else [].

Ltac close_step :=
  first
    [ eexists; split;
      [ split; [reflexivity|]; simpl; rewrite ?orb_false_r, ?orb_true_r; reflexivity
      | reflexivity ]
    | exists []; rewrite app_nil_r, orb_false_r; split; [split|]; reflexivity ].

Ltac crack_check :=
  lazymatch goal with
  | |- context [if has_id ?doc ?k then _ else _] =>
      destruct (has_id doc k);
      unfold exec, fail, pass, na; cbv beta iota zeta;
      split_ifs; close_step
  end.

Lemma check_test_exists_appends e doc s :
  exists added, appends s (check_test_exists e doc s) added /\
    map vid added = if has_id doc "test_exists" then ["test_exists"%string] else [].
Proof. unfold check_test_exists, appends. crack_check. Qed.

Lemma check_test_checks_appends e doc s :
  exists added, appends s (check_test_checks e doc s) added /\
    map vid added = if has_id doc "test_checks" then ["test_checks"%string] else [].
Proof. unfold check_test_checks, appends. crack_check. Qed.

Lemma sec_step_appends e doc s :
  exists added, appends s (sec_step e doc s) added /\
    map vid added = if has_id doc "sec_secrets" then ["sec_secrets"%string] else [].
Proof. unfold sec_step, appends. crack_check. Qed.

Lemma check_read_format_appends e doc s :
  exists added, appends s (check_read_format e doc s) added /\
    map vid added = if has_id doc "read_format" then ["read_format"%string] else [].
Proof. unfold check_read_format, appends. crack_check. Qed.

Local Opaque recognized.

Lemma in_recognized_b x :
  existsb (String.eqb x) recognized = true <-> In x recognized.
Proof.
  rewrite existsb_exists; split.
  - intros [y [Hy Heq]]; apply String.eqb_eq in Heq; now subst.
  - intros H; exists x; split; [exact H | apply String.eqb_refl].
Qed.

Lemma in_ids_b s x :
  existsb (fun r => String.eqb (vid r) x) (results s) = true <-> In x (ids s).
Proof.
  unfold ids; rewrite existsb_exists, in_map_iff; split.
  - intros [v [Hv Heq]]; apply String.eqb_eq in Heq; eauto.
  - intros [v [Heq Hv]]; exists v; split; [exact Hv | now apply String.eqb_eq].
Qed.

Lemma has_id_spec doc x : has_id doc x = true <-> In x (doc_ids doc).
Proof.
  unfold has_id, doc_ids; rewrite existsb_exists, in_flat_map; split.
  - intros [c [Hc Hi]]; apply existsb_exists in Hi as [i [Hi Heq]].
    apply String.eqb_eq in Heq; subst x.
    exists c; split; [exact Hc | now apply in_map].
  - intros [c [Hc Hi]]; exists c; split; [exact Hc|].
    apply in_map_iff in Hi as [i [<- Hi]].
    apply existsb_exists; exists i; split; [exact Hi | apply String.eqb_refl].
Qed.

Lemma appends_trans s1 s2 s3 a1 a2 :
  appends s1 s2 a1 -> appends s2 s3 a2 -> appends s1 s3 (a1 ++ a2).
Proof.
  unfold appends; intros [R1 F1] [R2 F2]; split.
  - now rewrite R2, R1, app_assoc.
  - now rewrite F2, F1, existsb_app, orb_assoc.
Qed.

Lemma appends_refl s : appends s s [].
Proof. unfold appends; now rewrite app_nil_r, orb_false_r. Qed.

Lemma fallback_items_appends L s :
  exists added, appends s (fold_left fallback_item L s) added /\
    Forall fallback_verdict added.
Proof.
  revert s; induction L as [|i L IH]; intros s; simpl.
  - exists []; split; [apply appends_refl | constructor].
  - destruct (IH (fallback_item s i)) as [a2 [Ha2 Fa2]].
    unfold fallback_item in *.
    destruct (existsb (String.eqb (item_id i)) recognized) eqn:Er;
      [exists a2; auto|].
    destruct (existsb (fun r => String.eqb (vid r) (item_id i)) (results s));
      [exists a2; auto|].
    eexists; split; [eapply appends_trans; [|exact Ha2]|].
    + unfold na, appends; simpl; split; [reflexivity|]; now rewrite orb_false_r.
    + constructor; [|exact Fa2].
      unfold fallback_verdict; cbn [vid vstatus vreason]; split; [reflexivity | split; [reflexivity|]].
      rewrite <- in_recognized_b, Er; discriminate.
Qed.

Lemma fallback_items_ids L s x :
  In x (ids (fold_left fallback_item L s)) <->
  In x (ids s) \/ (In x (map item_id L) /\ ~ In x recognized).
Proof.
  revert s; induction L as [|i L IH]; intros s; simpl.
  - tauto.
  - rewrite IH; unfold fallback_item.
    destruct (existsb (String.eqb (item_id i)) recognized) eqn:Er.
    + apply in_recognized_b in Er.
      split; [tauto|]; intros [H|[[<-|H] Hn]]; tauto.
    + assert (Hr : ~ In (item_id i) recognized)
        by (rewrite <- in_recognized_b; now rewrite Er).
      destruct (existsb (fun r => String.eqb (vid r) (item_id i)) (results s)) eqn:Ep.
      * apply in_ids_b in Ep.
        split; [tauto|]; intros [H|[[<-|H] Hn]]; tauto.
      * unfold ids, na; cbn [results]; rewrite map_app, in_app_iff; cbn [map In vid].
        split.
        -- intros [[H|[<-|[]]]|H]; [tauto | right; split; [now left | exact Hr] | tauto].
        -- intros [H|[[<-|H] Hn]]; [tauto | left; right; now left | tauto].
Qed.

Lemma fallback_appends doc s :
  exists added, appends s (fallback doc s) added /\ Forall fallback_verdict added.
Proof.
  unfold fallback; generalize (categories doc) as cs; intros cs.
  revert s; induction cs as [|c cs IH]; intros s; simpl.
  - exists []; split; [apply appends_refl | constructor].
  - destruct (fallback_items_appends (items c) s) as [a1 [H1 F1]].
    destruct (IH (fold_left fallback_item (items c) s)) as [a2 [H2 F2]].
    exists (a1 ++ a2); split; [eapply appends_trans; eauto | now apply Forall_app].
Qed.

Lemma fallback_ids doc s x :
  In x (ids (fallback doc s)) <->
  In x (ids s) \/ (In x (doc_ids doc) /\ ~ In x recognized).
Proof.
  unfold fallback, doc_ids; generalize (categories doc) as cs; intros cs.
  revert s; induction cs as [|c cs IH]; intros s; simpl.
  - tauto.
  - rewrite IH, fallback_items_ids, in_app_iff; tauto.
Qed.

Lemma completed_checked e doc : completed e doc = fallback doc (checked e doc).
Proof. reflexivity. Qed.

Lemma check_sec_secrets_step e doc s :
  check_sec_secrets e doc s =
  if has_id doc "sec_secrets" && walk_throws e then (s, true) else (sec_step e doc s, false).
Proof.
  unfold check_sec_secrets, sec_step.
  destruct (has_id doc _), (walk_throws e); simpl; [reflexivity| |reflexivity..].
  destruct (suspicious e); reflexivity.
Qed.

Lemma audit_spec e doc :
  audit e doc =
  if package_throws e then (init, true)
  else if has_id doc "sec_secrets" && walk_throws e
  then (check_test_checks e doc (check_test_exists e doc init), true)
  else (completed e doc, false).
Proof.
  unfold audit; destruct (package_throws e); [reflexivity|].
  rewrite check_sec_secrets_step.
  destruct (has_id doc _ && walk_throws e); reflexivity.
Qed.

Lemma main_valid e doc :
  checklist_file e = Some (CTValid doc) ->
  main e = if crashes e doc then Uncaught "Error"
           else Exit (if hasFail (completed e doc) then 1 else 0)
                     (Some (results (completed e doc))).
Proof.
  intros Hdoc; unfold main, crashes; rewrite Hdoc, audit_spec.
  destruct (package_throws e); [reflexivity|].
  destruct (has_id doc _ && walk_throws e); reflexivity.
Qed.

Local Transparent recognized.

Lemma checked_appends e doc :
  exists added, appends init (checked e doc) added /\
    forall x, In x (map vid added) <-> In x recognized /\ In x (doc_ids doc).
Proof.
  unfold checked.
  destruct (check_test_exists_appends e doc init) as [a1 [H1 I1]].
  destruct (check_test_checks_appends e doc (check_test_exists e doc init)) as [a2 [H2 I2]].
  destruct (sec_step_appends e doc
              (check_test_checks e doc (check_test_exists e doc init))) as [a3 [H3 I3]].
  destruct (check_read_format_appends e doc
              (sec_step e doc
                 (check_test_checks e doc (check_test_exists e doc init)))) as [a4 [H4 I4]].
  exists (((a1 ++ a2) ++ a3) ++ a4); split.
  { eapply appends_trans; [eapply appends_trans; [eapply appends_trans|]|]; eauto. }
  intros x.
  assert (Hk : forall k, In x (if has_id doc k then [k] else []) <->
                         x = k /\ In k (doc_ids doc)).
  { intros k; rewrite <- has_id_spec; destruct (has_id doc k); simpl;
      intuition congruence. }
  rewrite !map_app, !in_app_iff, I1, I2, I3, I4, !Hk.
  unfold recognized; simpl.
  split.
  - intros [[[[-> H]|[-> H]]|[-> H]]|[-> H]]; tauto.
  - intros [Hr Hd]; decompose [or] Hr; subst; tauto.
Qed.

Lemma completed_appends e doc :
  exists added, appends init (completed e doc) added /\
    forall v, In v added -> In (vid v) recognized \/ fallback_verdict v.
Proof.
  rewrite completed_checked.
  destruct (checked_appends e doc) as [a1 [H1 I1]].
  destruct (fallback_appends doc (checked e doc)) as [a2 [H2 F2]].
  exists (a1 ++ a2); split; [eapply appends_trans; eauto|].
  intros v Hv; apply in_app_or in Hv as [Hv|Hv].
  - left; apply (I1 (vid v)), in_map, Hv.
  - right; rewrite Forall_forall in F2; auto.
Qed.

Lemma completed_ids e doc x : In x (ids (completed e doc)) <-> In x (doc_ids doc).
Proof.
  rewrite completed_checked, fallback_ids.
  destruct (checked_appends e doc) as [a1 [[R1 _] I1]].
  unfold ids; rewrite R1; cbn [results init app]; rewrite I1.
  destruct (in_dec String.string_dec x recognized); tauto.
Qed.

Lemma check_test_exists_results e doc s :
  results (check_test_exists e doc s) =
  results s ++ opt_verdict doc "test_exists" (test_exists_verdict e).
Proof.
  unfold check_test_exists, opt_verdict, test_exists_verdict.
  destruct (has_id doc _); [|now rewrite app_nil_r].
  destruct (hasTests e); reflexivity.
Qed.

Lemma check_test_checks_results e doc s :
  results (check_test_checks e doc s) =
  results s ++ opt_verdict doc "test_checks" (test_checks_verdict e) /\
  ran (check_test_checks e doc s) =
  ran s ++ (if has_id doc "test_checks" then test_checks_ran e else []).
Proof.
  unfold check_test_checks, opt_verdict, test_checks_verdict, test_checks_ran,
    test_checks_guard.
  destruct (has_id doc _); [|now rewrite !app_nil_r].
  unfold exec, fail, pass, na; cbv beta iota zeta.
  split_ifs; simpl; rewrite ?app_nil_r; split; reflexivity.
Qed.

Lemma sec_step_results e doc s :
  results (sec_step e doc s) =
  results s ++ opt_verdict doc "sec_secrets" (sec_secrets_verdict e) /\
  ran (sec_step e doc s) = ran s.
Proof.
  unfold sec_step, opt_verdict, sec_secrets_verdict.
  destruct (has_id doc _); [|now rewrite !app_nil_r].
  destruct (suspicious e); split; reflexivity.
Qed.

Lemma check_read_format_results e doc s :
  results (check_read_format e doc s) =
  results s ++ opt_verdict doc "read_format" (read_format_verdict e) /\
  ran (check_read_format e doc s) = ran s.
Proof.
  unfold check_read_format, opt_verdict, read_format_verdict.
  destruct (has_id doc _); [|now rewrite !app_nil_r].
  destruct (hasFormat e); split; reflexivity.
Qed.

Lemma check_test_exists_ran e doc s : ran (check_test_exists e doc s) = ran s.
Proof.
  unfold check_test_exists; destruct (has_id doc _); [destruct (hasTests e)|]; reflexivity.
Qed.

Lemma fallback_ran doc s : ran (fallback doc s) = ran s.
Proof.
  unfold fallback; generalize (categories doc) as cs; intros cs.
  revert s; induction cs as [|c cs IH]; intros s; simpl; [reflexivity|].
  rewrite IH; generalize (items c) as L; intros L.
  revert s; induction L as [|i L IHL]; intros s; simpl; [reflexivity|].
  rewrite IHL; unfold fallback_item.
  destruct (existsb _ recognized); [reflexivity|].
  destruct (existsb _ (results s)); reflexivity.
Qed.

Lemma completed_results e doc :
  exists rest,
    results (completed e doc) =
      opt_verdict doc "test_exists" (test_exists_verdict e) ++
      opt_verdict doc "test_checks" (test_checks_verdict e) ++
      opt_verdict doc "sec_secrets" (sec_secrets_verdict e) ++
      opt_verdict doc "read_format" (read_format_verdict e) ++ rest /\
    Forall fallback_verdict rest.
Proof.
  rewrite completed_checked.
  destruct (fallback_appends doc (checked e doc)) as [rest [[R _] F]].
  exists rest; split; [|exact F].
  rewrite R; unfold checked.
  rewrite (proj1 (check_read_format_results _ _ _)),
    (proj1 (sec_step_results _ _ _)),
    (proj1 (check_test_checks_results _ _ _)), check_test_exists_results.
  simpl; now rewrite <- !app_assoc.
Qed.

Lemma completed_ran e doc :
  ran (completed e doc) = if has_id doc "test_checks" then test_checks_ran e else [].
Proof.
  rewrite completed_checked, fallback_ran; unfold checked.
  rewrite (proj2 (check_read_format_results _ _ _)),
    (proj2 (sec_step_results _ _ _)),
    (proj2 (check_test_checks_results _ _ _)), check_test_exists_ran.
  reflexivity.
Qed.

Lemma audit_ran e doc :
  package_throws e = false ->
  ran (fst (audit e doc)) = if has_id doc "test_checks" then test_checks_ran e else [].
Proof.
  intros Hp; rewrite audit_spec, Hp.
  destruct (has_id doc "sec_secrets" && walk_throws e); [|apply completed_ran].
  simpl; rewrite (proj2 (check_test_checks_results _ _ _)), check_test_exists_ran.
  reflexivity.
Qed.

Lemma verdicts_for_fallback k rest :
  In k recognized -> Forall fallback_verdict rest -> verdicts_for k rest = [].
Proof.
  intros Hk F; induction F as [|v rest [_ [_ Hv]] F IH]; [reflexivity|].
  unfold verdicts_for in *; simpl; rewrite IH.
  destruct (String.eqb_spec (vid v) k) as [<-|]; [contradiction | reflexivity].
Qed.

Ltac vid_tac := unfold mkv; split_ifs; reflexivity.

Lemma vid_test_exists e : vid (test_exists_verdict e) = "test_exists"%string.
Proof. unfold test_exists_verdict; vid_tac. Qed.
Lemma vid_test_checks e : vid (test_checks_verdict e) = "test_checks"%string.
Proof. unfold test_checks_verdict; vid_tac. Qed.
Lemma vid_sec_secrets e : vid (sec_secrets_verdict e) = "sec_secrets"%string.
Proof. unfold sec_secrets_verdict; vid_tac. Qed.
Lemma vid_read_format e : vid (read_format_verdict e) = "read_format"%string.
Proof. unfold read_format_verdict; vid_tac. Qed.

Lemma verdicts_for_app k a b :
  verdicts_for k (a ++ b) = verdicts_for k a ++ verdicts_for k b.
Proof. apply filter_app. Qed.

Lemma verdicts_for_opt doc k k' v :
  vid v = k' -> verdicts_for k (opt_verdict doc k' v) =
                if String.eqb k' k then opt_verdict doc k' v else [].
Proof.
  intros Hv; unfold verdicts_for, opt_verdict.
  destruct (has_id doc k'); simpl; rewrite ?Hv; destruct (String.eqb k' k); reflexivity.
Qed.

Lemma completed_verdicts_for e doc k v :
  k = vid v ->
  In v [test_exists_verdict e; test_checks_verdict e;
        sec_secrets_verdict e; read_format_verdict e] ->
  verdicts_for k (results (completed e doc)) = opt_verdict doc k v.
Proof.
  intros -> Hin.
  destruct (completed_results e doc) as [rest [R F]]; rewrite R.
  rewrite !verdicts_for_app.
  rewrite (verdicts_for_fallback (vid v) rest).
  2:{ simpl in Hin; decompose [or] Hin; subst;
      rewrite ?vid_test_exists, ?vid_test_checks, ?vid_sec_secrets, ?vid_read_format;
      simpl; tauto. }
  2:{ exact F. }
  rewrite (verdicts_for_opt _ _ _ _ (vid_test_exists e)),
    (verdicts_for_opt _ _ _ _ (vid_test_checks e)),
    (verdicts_for_opt _ _ _ _ (vid_sec_secrets e)),
    (verdicts_for_opt _ _ _ _ (vid_read_format e)).
  simpl in Hin; decompose [or] Hin; subst; try contradiction;
    rewrite ?vid_test_exists, ?vid_test_checks, ?vid_sec_secrets, ?vid_read_format;
    simpl; now rewrite ?app_nil_r.
Qed.

End BatchFacts.

Module BatchLemmas.
Import BatchFacts.

Lemma truthy_get_opt o k : truthy (get_opt o k) = true -> truthy o = true.
Proof.
  destruct o as [[]|]; simpl; try discriminate; auto.
Qed.



Lemma in_suspicious e fp :
  In fp (suspicious e) <->
  exists c, In (fp, c) (fst (walk (root e) (tree e))) /\ flagged (fp, c) = true.
Proof.
  unfold suspicious; rewrite in_map_iff; split.
  - intros [[fp' c] [<- Hin]]; apply filter_In in Hin as [Hin Hf].
    exists c; auto.
  - intros [c [Hin Hf]]; exists (fp, c); split; [reflexivity|].
    now apply filter_In.
Qed.


Lemma t_app a b : t (a ++ b) = t a ++ t b.
Proof. induction a as [|x a IH]; simpl; [reflexivity | now rewrite IH]. Qed.

Lemma is_prefix_app p r : is_prefix p (p ++ r) = true.
Proof.
  induction p as [|x p IH]; simpl; [reflexivity|].
  now rewrite Ascii.eqb_refl, IH.
Qed.

Lemma includes_middle a p b : includes (a ++ p ++ b) p = true.
Proof.
  induction a as [|x a IH]; simpl.
  - destruct (p ++ b) as [|y r] eqn:E; simpl; rewrite <- E, is_prefix_app; reflexivity.
  - rewrite IH; apply orb_true_r.
Qed.

End BatchLemmas.

Module BatchClaims.
Import BatchFacts BatchLemmas Scenarios.




(** C4: a missing checklist ends the run with code 2 and prints nothing;
    a run on a checklist that loads and completes ends with code 1
    exactly when some printed verdict is Fail, and with code 0 exactly
    when every printed verdict is Pass or NeedsAttention (a run that
    throws before printing ends with code 1 as well). *)
Theorem exit_code_reflects_fail (e : env) :
  match checklist_file e with
  | None => main e = Exit 2 None
  | Some (CTValid _) =>
      match main e with
      | Exit code (Some rs) =>
          (code = 1%Z <-> Exists (fun v => vstatus v = Fail) rs) /\
          (code = 0%Z <-> Forall (fun v => vstatus v = Pass \/ vstatus v = NeedsAttention) rs)
      | Exit _ None => False
      | Uncaught _ => exit_code (main e) = 1%Z
      end
  | Some CTMalformed => True
  end.
Proof.
  destruct (checklist_file e) as [[doc|]|] eqn:Hdoc; auto.
  2:{ unfold main; now rewrite Hdoc. }
  rewrite (main_valid e doc Hdoc).
  destruct (crashes e doc); [reflexivity|].
  destruct (completed_appends e doc) as [a [[R F] _]].
  rewrite F, R; simpl.
  assert (Hx : existsb is_fail a = true <-> Exists (fun v => vstatus v = Fail) a).
  { rewrite existsb_exists, Exists_exists; unfold is_fail.
    split; intros [v [Hv Hs]]; exists v; split; auto;
      destruct (vstatus v); congruence. }
  assert (Hy : existsb is_fail a = false <->
               Forall (fun v => vstatus v = Pass \/ vstatus v = NeedsAttention) a).
  { rewrite Forall_forall; split.
    - intros Hf v Hv; destruct (vstatus v) eqn:Es; auto.
      assert (existsb is_fail a = true)
        by (apply existsb_exists; exists v; unfold is_fail; now rewrite Es).
      congruence.
    - intros Hall; apply not_true_iff_false; intros Ht.
      apply existsb_exists in Ht as [v [Hv Hs]].
      unfold is_fail in Hs; destruct (Hall v Hv) as [E|E]; rewrite E in Hs; discriminate. }
  destruct (existsb is_fail a); (split; split).
  - intros _; now apply Hx.
  - reflexivity.
  - discriminate.
  - intros H; apply Hy in H; discriminate.
  - discriminate.
  - intros H; apply Hx in H; discriminate.
  - intros _; now apply Hy.
  - reflexivity.
Qed.







(** C9 (as stated, refuted): with test_checks in the checklist and a
    package.json holding just [{], the run throws at line 41: no command
    is run and no verdict is printed. *)
Lemma test_checks_badpkg_counterexample :
  checklist_file env_badpkg_tc = Some (CTValid (one_category ["test_checks"%string])) /\
  main env_badpkg_tc = Uncaught "Error" /\
  ran (fst (audit env_badpkg_tc (one_category ["test_checks"%string]))) = [].
Proof. split; [reflexivity|]; split; reflexivity. Qed.

(** C9 (amended): on a checklist that loads and lists test_checks, a
    package.json on which [readJSON] throws ends the run before any
    command runs, printing nothing.  Otherwise a declared lint script is
    run; failing that a declared test script is run; failing that nothing
    runs.  When the run completes there is exactly one test_checks
    verdict: Pass or Fail as the command exits zero or throws, and
    NeedsAttention when nothing ran; it throws instead only when
    sec_secrets is listed and the walk throws.  The command's outcome is
    all the code observes. *)
Theorem test_checks_runs_declared_script (e : env) (doc : ChecklistFile)
  (Hdoc : checklist_file e = Some (CTValid doc))
  (Hk : has_id doc "test_checks" = true) :
  (package_throws e = true -> main e = Uncaught "Error" /\ ran (fst (audit e doc)) = []) /\
  (package_throws e = false ->
     ran (fst (audit e doc)) =
       (if script_declared e "lint" then ["npm run lint --silent"%string]
        else if script_declared e "test" then ["npm test --silent"%string] else []) /\
     match main e with
     | Uncaught _ => has_id doc "sec_secrets" = true /\ walk_throws e = true
     | Exit _ None => False
     | Exit _ (Some rs) =>
         exists v, verdicts_for "test_checks" rs = [v] /\
           vstatus v =
             if script_declared e "lint" then
               (if run_ok e "npm run lint --silent" then Pass else Fail)
             else if script_declared e "test" then
               (if run_ok e "npm test --silent" then Pass else Fail)
             else NeedsAttention
     end).
Proof.
  split.
  { intros Hp; unfold main, audit; rewrite Hdoc, Hp; split; reflexivity. }
  intros Hp; split.
  { rewrite (audit_ran e doc Hp), Hk.
    unfold test_checks_ran, test_checks_guard, script_declared.
    set (p := packageObj e).
    destruct (truthy (get_opt (get_opt p "scripts") "lint")) eqn:El.
    - pose proof (truthy_get_opt _ _ El) as Es; pose proof (truthy_get_opt _ _ Es) as Ep.
      now rewrite Ep, Es.
    - destruct (truthy (get_opt (get_opt p "scripts") "test")) eqn:Et.
      + pose proof (truthy_get_opt _ _ Et) as Es; pose proof (truthy_get_opt _ _ Es) as Ep.
        now rewrite Ep, Es.
      + destruct (truthy p && truthy (get_opt p "scripts") && _); reflexivity. }
  rewrite (main_valid e doc Hdoc); unfold crashes; rewrite Hp; simpl.
  destruct (has_id doc "sec_secrets" && walk_throws e) eqn:Hc.
  { now apply andb_true_iff in Hc. }
  exists (test_checks_verdict e); split.
  { rewrite (completed_verdicts_for e doc "test_checks" (test_checks_verdict e)).
    - unfold opt_verdict; now rewrite Hk.
    - now rewrite vid_test_checks.
    - simpl; tauto. }
  unfold test_checks_verdict, test_checks_guard, script_declared.
  set (p := packageObj e).
  destruct (truthy (get_opt (get_opt p "scripts") "lint")) eqn:El.
  - pose proof (truthy_get_opt _ _ El) as Es; pose proof (truthy_get_opt _ _ Es) as Ep.
    rewrite Ep, Es; simpl; destruct (run_ok e _); reflexivity.
  - destruct (truthy (get_opt (get_opt p "scripts") "test")) eqn:Et.
    + pose proof (truthy_get_opt _ _ Et) as Es; pose proof (truthy_get_opt _ _ Es) as Ep.
      rewrite Ep, Es; simpl; destruct (run_ok e _); reflexivity.
    + destruct (truthy p && truthy (get_opt p "scripts") && _); reflexivity.
Qed.

Lemma test_checks_runs_declared_script_witness :
  checklist_file env_demo = Some (CTValid doc_all) /\
  has_id doc_all "test_checks" = true /\
  (package_throws env_demo = true ->
     main env_demo = Uncaught "Error" /\ ran (fst (audit env_demo doc_all)) = []) /\
  (package_throws env_demo = false ->
     ran (fst (audit env_demo doc_all)) =
       (if script_declared env_demo "lint" then ["npm run lint --silent"%string]
        else if script_declared env_demo "test" then ["npm test --silent"%string] else []) /\
     match main env_demo with
     | Uncaught _ => has_id doc_all "sec_secrets" = true /\ walk_throws env_demo = true
     | Exit _ None => False
     | Exit _ (Some rs) =>
         exists v, verdicts_for "test_checks" rs = [v] /\
           vstatus v =
             if script_declared env_demo "lint" then
               (if run_ok env_demo "npm run lint --silent" then Pass else Fail)
             else if script_declared env_demo "test" then
               (if run_ok env_demo "npm test --silent" then Pass else Fail)
             else NeedsAttention
     end).
Proof.
  split; [reflexivity|]; split; [reflexivity|].
  apply (test_checks_runs_declared_script env_demo doc_all); reflexivity.
Defined.

(** C10: the secret scan drops every path that contains node_modules or
    .git anywhere; in particular a top-level .gitignore is never read,
    whatever its content. *)
Theorem secret_scan_skips_git_substring_paths (e : env) :
  (forall fp, In fp (suspicious e) ->
     includes (t fp) (t "node_modules") = false /\ includes (t fp) (t ".git") = false) /\
  (forall c rest,
     suspicious (with_tree e (File ".gitignore" c :: rest)) =
     suspicious (with_tree e rest)).
Proof.
  split.
  - intros fp H; apply in_suspicious in H as [c [_ Hf]].
    unfold flagged, excluded_path in Hf.
    destruct (includes (t fp) (t "node_modules")), (includes (t fp) (t ".git"));
      simpl in Hf; try discriminate; auto.
  - intros c rest.
    unfold suspicious, with_tree, walk; cbn [root tree walk_seq walk_node].
    destruct (walk_seq (walk_node (root e)) rest) as [b tb]; cbn [fst app filter].
    replace (flagged (join (root e) ".gitignore", c)) with false; [reflexivity|].
    symmetry; unfold flagged, excluded_path.
    assert (Hg : includes (t (join (root e) ".gitignore")) (t ".git") = true).
    { unfold join; destruct (String.eqb (root e) "/");
        rewrite ?t_app; change (t ".gitignore") with (t ".git" ++ t "ignore");
        [ | rewrite app_assoc ]; apply includes_middle. }
    now rewrite Hg, orb_true_r.
Qed.

(** C5 (a defect): a malformed checklist does not end the batch run the
    way a missing one does.  Missing: exit code 2, nothing printed.
    Malformed: [JSON.parse] throws out of the script, which Node ends with
    exit code 1, the code of a failed check.  The interactive reviewer's
    loadChecklist answers [null] in both cases. *)
Theorem malformed_checklist_not_like_missing (e1 e2 : env)
  (H1 : checklist_file e1 = None) (H2 : checklist_file e2 = Some CTMalformed) :
  main e1 = Exit 2 None /\ main e2 = Uncaught "SyntaxError" /\
  exit_code (main e1) = 2%Z /\ exit_code (main e2) = 1%Z /\
  (forall r, Loader.loadChecklist [r] (fun _ => None) = None /\
             Loader.loadChecklist [r] (fun _ => Some CTMalformed) = None).
Proof.
  unfold main, exit_code; rewrite H1, H2; repeat split.
Qed.

Lemma malformed_checklist_not_like_missing_witness :
  checklist_file env_missing = None /\ checklist_file env_malformed = Some CTMalformed /\
  main env_missing = Exit 2 None /\ main env_malformed = Uncaught "SyntaxError" /\
  exit_code (main env_missing) = 2%Z /\ exit_code (main env_malformed) = 1%Z /\
  (forall r, Loader.loadChecklist [r] (fun _ => None) = None /\
             Loader.loadChecklist [r] (fun _ => Some CTMalformed) = None).
Proof.
  split; [reflexivity|]; split; [reflexivity|].
  apply (malformed_checklist_not_like_missing env_missing env_malformed); reflexivity.
Defined.

End BatchClaims.

Module TextFacts.
Import Extension BatchLemmas.

Local Arguments ws_then_fence : simpl never.

Lemma rtrim_nil_iff u : rtrim u = [] <-> forallb is_ws u = true.
Proof.
  induction u as [|x u IH]; simpl; [tauto|].
  destruct (rtrim u) as [|y ys].
  - assert (Hu : forallb is_ws u = true) by now apply IH.
    rewrite Hu, andb_true_r; destruct (is_ws x); split; auto; discriminate.
  - split; [discriminate|].
    intros H; apply andb_prop in H as [_ H]; apply IH in H; discriminate.
Qed.

Lemma ltrim_app a b :
  ltrim (a ++ b) = match ltrim a with [] => ltrim b | l => l ++ b end.
Proof.
  induction a as [|x a IH]; simpl; [reflexivity|].
  destruct (is_ws x); [exact IH | reflexivity].
Qed.

Lemma rtrim_app a b : rtrim b <> [] -> rtrim (a ++ b) = a ++ rtrim b.
Proof.
  intros Hb; induction a as [|x a IH]; simpl; [reflexivity|].
  rewrite IH; destruct a; simpl;
    destruct (rtrim b) eqn:E; [contradiction | reflexivity | contradiction | reflexivity].
Qed.

Lemma ws_then_fence_app u : ws_then_fence (u ++ fence) = forallb is_ws u.
Proof.
  induction u as [|x u IH]; [reflexivity|].
  change ((x :: u) ++ fence) with (x :: (u ++ fence)).
  change (ws_then_fence (x :: (u ++ fence))) with
    ((if list_eq_dec ascii_dec (x :: u ++ fence) fence then true else false) ||
     (is_ws x && ws_then_fence (u ++ fence))).
  destruct (list_eq_dec ascii_dec (x :: u ++ fence) fence) as [E|_].
  - exfalso; apply (f_equal (@List.length ascii)) in E.
    simpl in E; rewrite length_app in E; simpl in E; lia.
  - cbn [orb forallb]; now rewrite IH.
Qed.

Lemma drop_close_fence u : drop_close (u ++ fence) = rtrim u.
Proof.
  induction u as [|x u IH]; [reflexivity|].
  change ((x :: u) ++ fence) with (x :: (u ++ fence)).
  change (drop_close (x :: (u ++ fence))) with
    (if ws_then_fence (x :: (u ++ fence)) then []
     else x :: drop_close (u ++ fence)).
  change (x :: (u ++ fence)) with ((x :: u) ++ fence).
  rewrite ws_then_fence_app, IH.
  cbn [forallb rtrim].
  destruct (rtrim u) as [|y ys] eqn:E.
  - assert (Hu : forallb is_ws u = true) by now apply rtrim_nil_iff.
    rewrite Hu, andb_true_r; destruct (is_ws x); reflexivity.
  - assert (Hu : forallb is_ws u = false).
    { apply not_true_iff_false; intros Hu; apply rtrim_nil_iff in Hu; congruence. }
    now rewrite Hu, andb_false_r.
Qed.

Lemma skipn_length_app (a b : text) : skipn (List.length a) (a ++ b) = b.
Proof. induction a; simpl; auto. Qed.

Lemma is_prefix_app_l a p l : is_prefix (a ++ p) (a ++ l) = is_prefix p l.
Proof.
  induction a as [|x a IH]; simpl; [reflexivity|].
  now rewrite Ascii.eqb_refl, IH.
Qed.

Lemma is_prefix_app_inv a p l : is_prefix (a ++ p) l = true -> is_prefix a l = true.
Proof.
  revert l; induction a as [|x a IH]; intros l H; [reflexivity|].
  destruct l as [|y l]; simpl in *; [discriminate|].
  apply andb_prop in H as [H1 H2]; rewrite H1; simpl; now apply IH.
Qed.

Lemma ltrim_fence_app s : ltrim (s ++ fence) = ltrim s ++ fence.
Proof. rewrite ltrim_app; destruct (ltrim s); reflexivity. Qed.

(** A text that starts and ends with a backtick is already trimmed. *)
Lemma trim_fenced a s : trim (fence ++ a ++ s ++ fence) = fence ++ a ++ s ++ fence.
Proof.
  unfold trim.
  change (ltrim (fence ++ a ++ s ++ fence)) with (fence ++ a ++ s ++ fence).
  rewrite !app_assoc, rtrim_app; [reflexivity | discriminate].
Qed.

Lemma ltrim_idem l : ltrim (ltrim l) = ltrim l.
Proof.
  induction l as [|x l IH]; simpl; [reflexivity|].
  destruct (is_ws x) eqn:E; [exact IH | simpl; now rewrite E].
Qed.

Lemma rtrim_idem l : rtrim (rtrim l) = rtrim l.
Proof.
  induction l as [|x l IH]; simpl; [reflexivity|].
  destruct (rtrim l) as [|y ys] eqn:E.
  - destruct (is_ws x) eqn:W; simpl; [reflexivity | now rewrite W].
  - change (rtrim (x :: y :: ys)) with
      (match rtrim (y :: ys) with [] => if is_ws x then [] else [x]
                               | _ => x :: rtrim (y :: ys) end).
    now rewrite IH.
Qed.

Lemma rtrim_cons_fixed x r : rtrim (x :: r) = x :: r -> rtrim r = r.
Proof.
  simpl; destruct (rtrim r) as [|y ys] eqn:E.
  - destruct (is_ws x); intros H; [discriminate | injection H as <-; reflexivity].
  - intros H; injection H as H; exact H.
Qed.

Lemma rtrim_skipn k l : rtrim l = l -> rtrim (skipn k l) = skipn k l.
Proof.
  revert l; induction k as [|k IH]; intros l H; [exact H|].
  destruct l as [|x l]; [reflexivity|].
  simpl; apply IH, (rtrim_cons_fixed x), H.
Qed.

Lemma rtrim_ltrim l : rtrim l = l -> rtrim (ltrim l) = ltrim l.
Proof.
  induction l as [|x l IH]; intros H; [reflexivity|].
  simpl ltrim; destruct (is_ws x); [apply IH, (rtrim_cons_fixed x), H | exact H].
Qed.

Lemma ltrim_length l : List.length (ltrim l) <= List.length l.
Proof.
  induction l as [|x l IH]; simpl; [lia|].
  destruct (is_ws x); simpl; lia.
Qed.

Lemma ltrim_fixed_head x r : ltrim (x :: r) = x :: r -> is_ws x = false.
Proof.
  simpl; destruct (is_ws x); [|reflexivity].
  intros H; pose proof (ltrim_length r) as L; rewrite H in L; simpl in L; lia.
Qed.

Lemma ltrim_rtrim l : ltrim l = l -> ltrim (rtrim l) = rtrim l.
Proof.
  destruct l as [|x r]; intros H; [reflexivity|].
  apply ltrim_fixed_head in H.
  simpl rtrim; destruct (rtrim r).
  - rewrite H; simpl; now rewrite H.
  - simpl; now rewrite H.
Qed.

Lemma drop_close_ltrim w : ltrim w = w -> ltrim (drop_close w) = drop_close w.
Proof.
  destruct w as [|x r]; intros H; [reflexivity|].
  apply ltrim_fixed_head in H.
  simpl drop_close; destruct (ws_then_fence (x :: r)); [reflexivity|].
  simpl; now rewrite H.
Qed.

Lemma drop_close_nil r : drop_close r = [] -> r = [] \/ ws_then_fence r = true.
Proof.
  destruct r as [|y ys]; [now left|].
  simpl drop_close; destruct (ws_then_fence (y :: ys)); [now right | discriminate].
Qed.

Lemma drop_close_rtrim w : rtrim w = w -> rtrim (drop_close w) = drop_close w.
Proof.
  induction w as [|x r IH]; intros H; [reflexivity|].
  pose proof (rtrim_cons_fixed x r H) as Hr.
  simpl drop_close; destruct (ws_then_fence (x :: r)) eqn:W; [reflexivity|].
  simpl rtrim; rewrite (IH Hr).
  destruct (drop_close r) as [|y ys] eqn:D; [|reflexivity].
  destruct (drop_close_nil r D) as [->|Wr].
  - simpl in H; destruct (is_ws x); [discriminate | reflexivity].
  - change ((if list_eq_dec ascii_dec (x :: r) fence then true else false) ||
            (is_ws x && ws_then_fence r) = false) in W.
    rewrite Wr, andb_true_r, orb_false_iff in W.
    destruct W as [_ ->]; reflexivity.
Qed.

Lemma trim_trimmed x : ltrim (trim x) = trim x /\ rtrim (trim x) = trim x.
Proof.
  unfold trim; split; [apply ltrim_rtrim, ltrim_idem | apply rtrim_idem].
Qed.

Lemma strip_fence_trimmed x : trim (strip_fence x) = strip_fence x.
Proof.
  assert (Hw : forall m, let w := drop_open m (trim x) in
                 trim (drop_close w) = drop_close w).
  { intros m w; unfold trim.
    destruct (trim_trimmed x) as [_ Hr].
    assert (Lw : ltrim w = w) by apply ltrim_idem.
    assert (Rw : rtrim w = w) by (apply rtrim_ltrim, rtrim_skipn, Hr).
    rewrite (drop_close_ltrim w Lw); apply drop_close_rtrim, Rw. }
  unfold strip_fence; cbv zeta.
  destruct (startsWith (trim x) json_fence); [apply Hw|].
  destruct (startsWith (trim x) fence); [apply Hw|].
  destruct (trim_trimmed x) as [L R]; unfold trim at 1; now rewrite L.
Qed.

Lemma json_prefix_fence s :
  is_prefix (t "json") s = false -> is_prefix (t "json") (s ++ fence) = false.
Proof.
  destruct s as [|a [|b [|c [|d r]]]]; intros H; simpl in *;
    rewrite ?andb_false_r; auto.
Qed.

Lemma strip_unfenced s : startsWith (trim s) fence = false -> strip_fence s = trim s.
Proof.
  intros H; unfold strip_fence; cbv zeta.
  destruct (startsWith (trim s) json_fence) eqn:J.
  - unfold startsWith in J; change json_fence with (fence ++ t "json") in J.
    apply is_prefix_app_inv in J; unfold startsWith in H; congruence.
  - now rewrite H.
Qed.

Lemma ltrim_suffix l : exists a, l = a ++ ltrim l.
Proof.
  induction l as [|x l [a IH]]; [now exists []|].
  simpl; destruct (is_ws x); [exists (x :: a); simpl; now f_equal | now exists []].
Qed.

Lemma rtrim_prefix l : exists b, l = rtrim l ++ b.
Proof.
  induction l as [|x l [b IH]]; [now exists []|].
  simpl; destruct (rtrim l) as [|y ys] eqn:E.
  - destruct (is_ws x); [exists (x :: l); reflexivity | exists b; simpl; now f_equal].
  - exists b; simpl; now f_equal.
Qed.

Lemma drop_close_prefix l : exists b, l = drop_close l ++ b.
Proof.
  induction l as [|x l [b IH]]; [now exists []|].
  change (drop_close (x :: l)) with
    (if ws_then_fence (x :: l) then [] else x :: drop_close l).
  destruct (ws_then_fence (x :: l)); [now exists (x :: l) | exists b; simpl; now f_equal].
Qed.

Lemma infix_trans z y x : infix z y -> infix y x -> infix z x.
Proof.
  intros [a1 [b1 ->]] [a2 [b2 ->]].
  exists (a2 ++ a1), (b1 ++ b2); now rewrite <- !app_assoc.
Qed.

Lemma infix_refl x : infix x x.
Proof. exists [], []; now rewrite app_nil_r. Qed.

Lemma infix_suffix y a : infix y (a ++ y).
Proof. exists a, []; now rewrite app_nil_r. Qed.

Lemma infix_prefix y b : infix y (y ++ b).
Proof. now exists [], b. Qed.

Lemma trim_infix x : infix (trim x) x.
Proof.
  unfold trim; destruct (rtrim_prefix (ltrim x)) as [b Hb].
  destruct (ltrim_suffix x) as [a Ha].
  apply (infix_trans _ (ltrim x)).
  - exists [], b; exact Hb.
  - exists a, []; rewrite app_nil_r; exact Ha.
Qed.

Lemma drop_open_infix m x : infix (drop_close (drop_open m x)) x.
Proof.
  unfold drop_open.
  destruct (drop_close_prefix (ltrim (skipn (List.length m) x))) as [b Hb].
  destruct (ltrim_suffix (skipn (List.length m) x)) as [a Ha].
  apply (infix_trans _ (ltrim (skipn (List.length m) x))); [exists [], b; exact Hb|].
  apply (infix_trans _ (skipn (List.length m) x));
    [exists a, []; rewrite app_nil_r; exact Ha|].
  exists (firstn (List.length m) x), []; rewrite app_nil_r; symmetry; apply firstn_skipn.
Qed.

Lemma strip_fence_infix x : infix (strip_fence x) x.
Proof.
  unfold strip_fence; cbv zeta.
  destruct (startsWith (trim x) json_fence);
    [|destruct (startsWith (trim x) fence)];
    (eapply infix_trans; [|apply trim_infix]);
    [apply drop_open_infix | apply drop_open_infix | apply infix_refl].
Qed.

End TextFacts.

Module ExtensionClaims.
Import Extension BatchLemmas TextFacts.

(** C6 (as stated, refuted): stripping removes one fence layer only, so
    it is not idempotent on a doubly fenced text; and an inner text
    beginning with [json] strips differently under a plain fence and under
    a [json] fence. *)
Lemma fence_strip_counterexample :
  strip_fence (strip_fence (t "``` ```1``` ```")) <> strip_fence (t "``` ```1``` ```") /\
  strip_fence (fence ++ t "json[1]" ++ fence) <>
  strip_fence (json_fence ++ t "json[1]" ++ fence).
Proof. split; intros H; vm_compute in H; discriminate H. Qed.

(** C6 (amended): a [json]-fenced text strips to its trimmed inner text;
    so does a plain-fenced text whose inner text does not begin with
    [json], and an unfenced text whose trimmed form does not begin with
    three backticks.  Stripping is idempotent whenever its result does not
    itself begin with three backticks. *)
Theorem strip_fence_tolerant_idempotent (s x : text) :
  strip_fence (json_fence ++ s ++ fence) = trim s /\
  (startsWith s (t "json") = false -> strip_fence (fence ++ s ++ fence) = trim s) /\
  (startsWith (trim s) fence = false -> strip_fence s = trim s) /\
  (startsWith (strip_fence x) fence = false ->
   strip_fence (strip_fence x) = strip_fence x).
Proof.
  split; [|split; [|split]].
  - unfold strip_fence; cbv zeta.
    change json_fence with (fence ++ t "json").
    rewrite <- app_assoc, trim_fenced.
    unfold startsWith; rewrite app_assoc, is_prefix_app.
    unfold drop_open; rewrite skipn_length_app, ltrim_fence_app, drop_close_fence.
    reflexivity.
  - intros H; unfold strip_fence; cbv zeta.
    change (fence ++ s ++ fence) with (fence ++ [] ++ s ++ fence).
    rewrite trim_fenced; cbn [app].
    unfold startsWith; change json_fence with (fence ++ t "json").
    rewrite is_prefix_app_l, json_prefix_fence by exact H.
    rewrite is_prefix_app.
    unfold drop_open; rewrite skipn_length_app, ltrim_fence_app, drop_close_fence.
    reflexivity.
  - apply strip_unfenced.
  - intros H; rewrite strip_unfenced; [apply strip_fence_trimmed|].
    now rewrite strip_fence_trimmed.
Qed.

Lemma strip_fence_tolerant_idempotent_witness :
  strip_fence (json_fence ++ t "[1]" ++ fence) = trim (t "[1]") /\
  (startsWith (t "[1]") (t "json") = false ->
   strip_fence (fence ++ t "[1]" ++ fence) = trim (t "[1]")) /\
  (startsWith (trim (t "[1]")) fence = false -> strip_fence (t "[1]") = trim (t "[1]")) /\
  (startsWith (strip_fence (t "  [1] ")) fence = false ->
   strip_fence (strip_fence (t "  [1] ")) = strip_fence (t "  [1] ")).
Proof. apply (strip_fence_tolerant_idempotent (t "[1]") (t "  [1] ")). Defined.

(** C7: when the stripped text does not parse, runLLMReview's parsing
    step fails (it never answers a verdict list) with a message that holds
    the raw completion verbatim, and with it the stripped text. *)
Theorem parse_failure_reports_raw_text (V : Type) (json_parse : text -> option V)
  (content : text) (Hbad : json_parse (strip_fence content) = None) :
  exists msg, parse_completion V json_parse content = inr msg /\
    msg = t "Failed to parse LLM JSON: " ++ content /\
    infix content msg /\ infix (strip_fence content) msg.
Proof.
  unfold parse_completion; rewrite Hbad.
  eexists; split; [reflexivity|]; split; [reflexivity|].
  assert (Hc : infix content (t "Failed to parse LLM JSON: " ++ content))
    by apply infix_suffix.
  split; [exact Hc|].
  eapply infix_trans; [apply strip_fence_infix | exact Hc].
Qed.

Lemma parse_failure_reports_raw_text_witness :
  (fun _ : text => @None unit) (strip_fence (t "```json {oops ```")) = None /\
  exists msg, parse_completion unit (fun _ => None) (t "```json {oops ```") = inr msg /\
    msg = t "Failed to parse LLM JSON: " ++ t "```json {oops ```" /\
    infix (t "```json {oops ```") msg /\
    infix (strip_fence (t "```json {oops ```")) msg.
Proof.
  split; [reflexivity|].
  apply (parse_failure_reports_raw_text unit (fun _ => None)); reflexivity.
Defined.

(** C8: with the credential unset (or empty) runLLMReview throws before
    any request; otherwise it issues exactly one request, bearing the
    credential and the built instruction. *)
Theorem credential_gate_single_request (V : Type) (json_parse : text -> option V)
  (apiKey : option text) (code checklist_json : text) (fetch : request -> response) :
  let run := runLLMReview V json_parse apiKey code checklist_json fetch in
  if credential_missing apiKey then fst run = [] /\ snd run = inr missing_key_error
  else exists key, apiKey = Some key /\
    fst run = [{| req_url := t "https://api.openai.com/v1/chat/completions";
                  req_authorization := t "Bearer " ++ key;
                  req_prompt := build_prompt code checklist_json |}].
Proof.
  unfold runLLMReview; cbv zeta.
  destruct apiKey as [[|c k]|]; simpl; [auto| |auto].
  exists (c :: k); split; [reflexivity|].
  destruct (resp_ok _); reflexivity.
Qed.

End ExtensionClaims.

(* ------------------------------------------------------------------ *)
(** ** Further facts about the batch auditor and the review command *)

Module ExtraFacts.
Import Batch BatchFacts BatchLemmas.

Lemma existsb_eqb_in x l : existsb (String.eqb x) l = true <-> In x l.
Proof.
  rewrite existsb_exists; split.
  - intros [y [Hy Heq]]; apply String.eqb_eq in Heq; now subst.
  - intros H; exists x; split; [exact H | apply String.eqb_refl].
Qed.

Lemma fallback_flat doc s :
  fallback doc s = fold_left fallback_item (flat_map items (categories doc)) s.
Proof.
  unfold fallback; generalize (categories doc) as cs; intros cs.
  revert s; induction cs as [|c cs IH]; intros s; simpl; [reflexivity|].
  now rewrite IH, fold_left_app.
Qed.

Lemma doc_ids_flat doc : doc_ids doc = map item_id (flat_map items (categories doc)).
Proof.
  unfold doc_ids; induction (categories doc) as [|c cs IH]; simpl; [reflexivity|].
  now rewrite map_app, IH.
Qed.

(** The default loop appends the ids not yet seen, at their first
    occurrence; [seen] stands for the recognised ids and those already
    reported. *)
Lemma fallback_items_order L s seen :
  (forall x, In x seen <-> In x recognized \/ In x (ids s)) ->
  exists R, results (fold_left fallback_item L s) = results s ++ R /\
            map vid R = first_occurrences seen (map item_id L).
Proof.
  revert s seen; induction L as [|i L IH]; intros s seen Hs.
  - exists []; now rewrite app_nil_r.
  - cbn [fold_left map first_occurrences].
    destruct (existsb (String.eqb (item_id i)) seen) eqn:Eseen.
    + assert (Hfi : fallback_item s i = s).
      { apply existsb_eqb_in, Hs in Eseen.
        unfold fallback_item.
        destruct (existsb (String.eqb (item_id i)) recognized) eqn:E1; [reflexivity|].
        destruct (existsb (fun r => String.eqb (vid r) (item_id i)) (results s)) eqn:E2;
          [reflexivity|].
        exfalso; destruct Eseen as [H|H].
        - apply in_recognized_b in H; congruence.
        - apply in_ids_b in H; congruence. }
      rewrite Hfi; exact (IH s seen Hs).
    + assert (Hn : ~ In (item_id i) seen)
        by (intros H; apply existsb_eqb_in in H; congruence).
      rewrite Hs in Hn.
      assert (Hfi : fallback_item s i = na (item_id i) manual_reason s).
      { unfold fallback_item.
        destruct (existsb (String.eqb (item_id i)) recognized) eqn:E1.
        - apply in_recognized_b in E1; tauto.
        - destruct (existsb (fun r => String.eqb (vid r) (item_id i)) (results s)) eqn:E2;
            [|reflexivity].
          apply in_ids_b in E2; tauto. }
      rewrite Hfi.
      destruct (IH (na (item_id i) manual_reason s) (item_id i :: seen)) as [R [HR HV]].
      { intros x; unfold ids; cbn [results na]; rewrite map_app, in_app_iff.
        cbn [In map vid]; fold (ids s); rewrite Hs; intuition. }
      exists (mkv (item_id i) NeedsAttention manual_reason :: R); split.
      * rewrite HR; cbn [results na]; now rewrite <- app_assoc.
      * cbn [map]; now rewrite HV.
Qed.

Lemma checked_ids e doc : ids (checked e doc) = filter (has_id doc) recognized.
Proof.
  unfold ids, checked.
  rewrite (proj1 (check_read_format_results _ _ _)),
    (proj1 (sec_step_results _ _ _)),
    (proj1 (check_test_checks_results _ _ _)), check_test_exists_results.
  cbn [results init app]; rewrite !map_app; unfold opt_verdict, recognized; cbn [filter].
  destruct (has_id doc "test_exists"), (has_id doc "test_checks"),
    (has_id doc "sec_secrets"), (has_id doc "read_format");
    cbn [map app];
    rewrite ?vid_test_exists, ?vid_test_checks, ?vid_sec_secrets, ?vid_read_format;
    reflexivity.
Qed.

(** The verdict ids of a run: the recognised ids the checklist lists, in
    the order of the checks, then the other ids at their first
    occurrence. *)
Lemma completed_ids_order e doc :
  ids (completed e doc) = filter (has_id doc) recognized ++ first_occurrences recognized (doc_ids doc).
Proof.
  rewrite completed_checked, fallback_flat, doc_ids_flat.
  destruct (fallback_items_order (flat_map items (categories doc)) (checked e doc) recognized)
    as [R [HR HV]].
  { intros x; rewrite checked_ids, filter_In; tauto. }
  unfold ids in *; rewrite HR, map_app, HV; f_equal; apply checked_ids.
Qed.

Lemma first_occurrences_notin seen l x : In x (first_occurrences seen l) -> ~ In x seen.
Proof.
  revert seen; induction l as [|y l IH]; intros seen; cbn [first_occurrences]; [tauto|].
  destruct (existsb (String.eqb y) seen) eqn:E; [apply IH|].
  intros [<-|H].
  - intros Hin; apply existsb_eqb_in in Hin; congruence.
  - intros Hin; apply (IH (y :: seen) H); now right.
Qed.

Lemma first_occurrences_nodup seen l : NoDup (first_occurrences seen l).
Proof.
  revert seen; induction l as [|y l IH]; intros seen; cbn [first_occurrences];
    [constructor|].
  destruct (existsb (String.eqb y) seen); [apply IH|].
  constructor; [|apply IH].
  intros H; apply (first_occurrences_notin _ _ _ H); now left.
Qed.

Lemma recognized_nodup : NoDup recognized.
Proof. unfold recognized; repeat constructor; simpl; intuition discriminate. Qed.

(** Which verdicts can be Fail. *)
Lemma fail_ids e doc v :
  In v (results (completed e doc)) -> vstatus v = Fail ->
  In (vid v) ["test_exists"; "test_checks"; "sec_secrets"]%string.
Proof.
  intros Hv Hf; destruct (completed_results e doc) as [rest [R F]]; rewrite R in Hv.
  unfold opt_verdict in Hv.
  apply in_app_or in Hv as [Hv|Hv].
  { destruct (has_id doc "test_exists"); simpl in Hv; [|contradiction].
    destruct Hv as [<-|[]]; rewrite vid_test_exists; simpl; auto. }
  apply in_app_or in Hv as [Hv|Hv].
  { destruct (has_id doc "test_checks"); simpl in Hv; [|contradiction].
    destruct Hv as [<-|[]]; rewrite vid_test_checks; simpl; auto. }
  apply in_app_or in Hv as [Hv|Hv].
  { destruct (has_id doc "sec_secrets"); simpl in Hv; [|contradiction].
    destruct Hv as [<-|[]]; rewrite vid_sec_secrets; simpl; auto. }
  apply in_app_or in Hv as [Hv|Hv].
  { destruct (has_id doc "read_format"); simpl in Hv; [|contradiction].
    destruct Hv as [<-|[]]; exfalso; revert Hf.
    unfold read_format_verdict, mkv; destruct (hasFormat e); discriminate. }
  rewrite Forall_forall in F; destruct (F v Hv) as [Hs _]; congruence.
Qed.

Lemma hasFormat_spec e :
  hasFormat e =
  exists_top e ".eslintrc" || exists_top e ".eslintrc.js" || exists_top e ".prettierrc" ||
  dev_declared e "eslint" || dev_declared e "prettier".
Proof.
  unfold hasFormat, dev_declared.
  rewrite <- !orb_assoc; f_equal; f_equal; f_equal.
  set (p := packageObj e).
  destruct (truthy (get_opt (get_opt p "devDependencies") "eslint")) eqn:E1;
    [|destruct (truthy (get_opt (get_opt p "devDependencies") "prettier")) eqn:E2].
  - pose proof (truthy_get_opt _ _ E1) as Ed.
    pose proof (truthy_get_opt _ _ Ed) as Ep.
    now rewrite Ep, Ed.
  - pose proof (truthy_get_opt _ _ E2) as Ed.
    pose proof (truthy_get_opt _ _ Ed) as Ep.
    now rewrite Ep, Ed.
  - now rewrite !andb_false_r.
Qed.

Lemma join_prefix dir f : exists s, t (join dir f) = t dir ++ s.
Proof. unfold join; destruct (String.eqb dir "/"); rewrite !t_app; eauto. Qed.

Lemma walk_seq_in w l x :
  In x (fst (walk_seq w l)) -> exists n, In n l /\ In x (fst (w n)).
Proof.
  induction l as [|n l IH]; cbn [walk_seq]; [intros []|].
  destruct (w n) as [a th] eqn:Hw; destruct th.
  - intros H; exists n; rewrite Hw; split; [now left | exact H].
  - destruct (walk_seq w l) as [b th'] eqn:Hl; cbn [fst]; intros H.
    apply in_app_or in H as [H|H].
    + exists n; rewrite Hw; split; [now left | exact H].
    + destruct (IH H) as [m [Hm Hx]]; exists m; split; [now right | exact Hx].
Qed.

Lemma walk_seq_app w l1 l2 :
  walk_seq w (l1 ++ l2) =
  match walk_seq w l1 with
  | (a, true) => (a, true)
  | (a, false) => let (b, th) := walk_seq w l2 in (a ++ b, th)
  end.
Proof.
  induction l1 as [|x l1 IH]; cbn [app walk_seq].
  - destruct (walk_seq w l2); reflexivity.
  - destruct (w x) as [a th]; destruct th; [reflexivity|].
    rewrite IH; destruct (walk_seq w l1) as [b [|]]; [reflexivity|].
    destruct (walk_seq w l2) as [c th]; now rewrite app_assoc.
Qed.

Lemma walk_node_prefix n :
  forall dir fp c, In (fp, c) (fst (walk_node dir n)) -> exists s, t fp = t dir ++ s.
Proof.
  induction n as [f c0|f ch IH|f|f] using node_ind'; intros dir fp c H;
    cbn [walk_node fst] in H.
  - destruct H as [[= <- _]|[]]; apply join_prefix.
  - destruct (join_prefix dir f) as [s' Hs'].
    apply walk_seq_in in H as [m [Hm Hx]].
    rewrite Forall_forall in IH; destruct (IH m Hm _ _ _ Hx) as [s Hs].
    exists (s' ++ s); now rewrite Hs, Hs', app_assoc.
  - destruct H.
  - destruct H.
Qed.

Lemma walk_prefix dir ts fp c :
  In (fp, c) (fst (walk dir ts)) -> exists s, t fp = t dir ++ s.
Proof.
  unfold walk; intros H; apply walk_seq_in in H as [n [_ H]];
    exact (walk_node_prefix n dir fp c H).
Qed.

Lemma is_prefix_extend p l r : is_prefix p l = true -> is_prefix p (l ++ r) = true.
Proof.
  revert l; induction p as [|x p IH]; intros l H; [reflexivity|].
  destruct l as [|y l]; simpl in *; [discriminate|].
  apply andb_true_iff in H as [H1 H2]; now rewrite H1, (IH l H2).
Qed.

Lemma includes_app_l a b p : includes a p = true -> includes (a ++ b) p = true.
Proof.
  induction a as [|x a IH]; intros H.
  - destruct p as [|y p]; [destruct b; reflexivity | discriminate].
  - simpl in *; apply orb_true_iff in H as [H|H]; apply orb_true_iff.
    + left; exact (is_prefix_extend _ (x :: a) b H).
    + right; exact (IH H).
Qed.

End ExtraFacts.

Module CommandFacts.
Import Extension Loader Handler.

Lemma infix_app_l y a x : infix y x -> infix y (a ++ x).
Proof. intros [p [s ->]]; exists (a ++ p), s; now rewrite <- app_assoc. Qed.

Lemma build_prompt_infix code cl :
  infix code (build_prompt code cl) /\ infix cl (build_prompt code cl).
Proof.
  unfold build_prompt; split.
  - apply infix_app_l, TextFacts.infix_prefix.
  - do 3 apply infix_app_l; apply TextFacts.infix_prefix.
Qed.

Lemma render_results_ok l :
  snd (render_results l) = None <->
  Forall (fun o => exists r line, o = Some r /\ render r = Some line) l.
Proof.
  induction l as [|[r|] l IH]; cbn [render_results].
  - split; [constructor | reflexivity].
  - destruct (render r) as [line|] eqn:Er.
    + destruct (render_results l) as [ls err]; cbn [snd] in *; rewrite IH.
      split; [intros H; constructor; eauto | intros H; now inversion H].
    + split; [discriminate|].
      intros H; apply Forall_inv in H as (r' & line & Heq & Hl).
      injection Heq as Heq; subst r'; congruence.
  - split; [discriminate|].
    intros H; apply Forall_inv in H as (r' & line & Hn & _); discriminate.
Qed.

Lemma render_results_prefix rs lines rest :
  map render rs = map Some lines ->
  render_results (map Some rs ++ None :: rest) = (lines, Some NullElement).
Proof.
  revert lines; induction rs as [|r rs IH]; intros [|line lines] H; try discriminate;
    [reflexivity|].
  injection H as Hr Hl; cbn [map app render_results]; now rewrite Hr, (IH lines Hl).
Qed.

Lemma render_results_unconvertible rs lines r rest :
  map render rs = map Some lines -> render r = None ->
  render_results (map Some rs ++ Some r :: rest) = (lines, Some Unconvertible).
Proof.
  intros H Hr; revert lines H; induction rs as [|r0 rs IH]; intros [|line lines] H;
    try discriminate.
  - cbn [map app render_results]; now rewrite Hr.
  - injection H as H0 Hl; cbn [map app render_results]; now rewrite H0, (IH lines Hl).
Qed.

Lemma runLLMReview_requests V jp apiKey code cl fetch :
  fst (runLLMReview V jp apiKey code cl fetch) =
  match apiKey with
  | None | Some [] => []
  | Some key => [{| req_url := t "https://api.openai.com/v1/chat/completions";
                    req_authorization := t "Bearer " ++ key;
                    req_prompt := build_prompt code cl |}]
  end.
Proof.
  unfold runLLMReview; destruct apiKey as [[|c k]|]; cbv zeta; try reflexivity.
  destruct (resp_ok _); reflexivity.
Qed.

Lemma runChecklist_requests stringify jp e1 e2 e3 editor folders read apiKey fetch :
  requests (runChecklist stringify jp e1 e2 e3 editor folders read apiKey fetch) =
  match editor, loadChecklist folders read with
  | Some d, Some doc => fst (runLLMReview answer jp apiKey (getText d) (stringify doc) fetch)
  | _, _ => []
  end.
Proof.
  unfold runChecklist; destruct editor as [d|]; [|reflexivity].
  destruct (loadChecklist folders read) as [doc|]; [|reflexivity].
  destruct (runLLMReview _ _ _ _ _ _) as [reqs out]; simpl.
  destruct out as [[|l]|msg]; [reflexivity| |reflexivity].
  destruct (render_results l) as [ls [[|]|]]; reflexivity.
Qed.

End CommandFacts.

Module Extras.
Import Batch BatchFacts BatchLemmas ExtraFacts Scenarios.

(** The batch auditor prints its verdicts in a fixed order: first the
    recognised checks the checklist lists, in the order test_exists,
    test_checks, sec_secrets, read_format, then every other checklist id
    once, in the order of its first occurrence in the checklist. *)
Theorem verdict_order (e : env) (doc : ChecklistFile) (code : Z) (rs : list Verdict)
  (Hdoc : checklist_file e = Some (CTValid doc)) (Hrun : main e = Exit code (Some rs)) :
  map vid rs = filter (has_id doc) recognized ++ first_occurrences recognized (doc_ids doc).
Proof.
  rewrite (main_valid e doc Hdoc) in Hrun.
  destruct (crashes e doc); [discriminate|].
  injection Hrun as _ <-; exact (completed_ids_order e doc).
Qed.

Lemma verdict_order_witness :
  checklist_file env_demo = Some (CTValid doc_all) /\
  main env_demo = Exit 1 (Some (results (completed env_demo doc_all))) /\
  map vid (results (completed env_demo doc_all)) =
    filter (has_id doc_all) recognized ++ first_occurrences recognized (doc_ids doc_all).
Proof.
  split; [reflexivity|]; split; [vm_compute; reflexivity|].
  apply (verdict_order env_demo doc_all 1 (results (completed env_demo doc_all)));
    [reflexivity | vm_compute; reflexivity].
Defined.

(** No id is reported twice by the batch auditor, even when the
    checklist lists an id several times. *)
Theorem verdict_ids_unique (e : env) (doc : ChecklistFile) (code : Z) (rs : list Verdict)
  (Hdoc : checklist_file e = Some (CTValid doc)) (Hrun : main e = Exit code (Some rs)) :
  NoDup (map vid rs).
Proof.
  rewrite (main_valid e doc Hdoc) in Hrun.
  destruct (crashes e doc); [discriminate|].
  injection Hrun as _ <-.
  change (NoDup (ids (completed e doc))); rewrite completed_ids_order.
  apply NoDup_app.
  - apply NoDup_filter, recognized_nodup.
  - apply first_occurrences_nodup.
  - intros x Hx Hy; apply filter_In in Hx as [Hx _].
    exact (first_occurrences_notin _ _ _ Hy Hx).
Qed.

Lemma verdict_ids_unique_witness :
  checklist_file env_demo = Some (CTValid doc_all) /\
  main env_demo = Exit 1 (Some (results (completed env_demo doc_all))) /\
  NoDup (map vid (results (completed env_demo doc_all))).
Proof.
  split; [reflexivity|]; split; [vm_compute; reflexivity|].
  apply (verdict_ids_unique env_demo doc_all 1 (results (completed env_demo doc_all)));
    [reflexivity | vm_compute; reflexivity].
Defined.

(** Only test_exists, test_checks and sec_secrets can be Fail: the
    read_format check and the default loop never fail.  A checklist that
    lists none of those three ids ends the script with code 0 when
    package.json is absent or parses, and with an uncaught exception (code
    1, nothing printed) when [readJSON] throws on it. *)
Theorem only_three_checks_fail (e : env) (doc : ChecklistFile)
  (Hdoc : checklist_file e = Some (CTValid doc)) :
  (forall code rs, main e = Exit code (Some rs) ->
     forall v, In v rs -> vstatus v = Fail ->
       In (vid v) ["test_exists"; "test_checks"; "sec_secrets"]%string) /\
  (has_id doc "test_exists" = false -> has_id doc "test_checks" = false ->
   has_id doc "sec_secrets" = false ->
   if package_throws e then main e = Uncaught "Error"
   else exists rs, main e = Exit 0 (Some rs)).
Proof.
  rewrite (main_valid e doc Hdoc).
  split.
  { intros code rs Hrun; destruct (crashes e doc); [discriminate|].
    injection Hrun as _ <-; apply fail_ids. }
  intros H1 H2 H3; unfold crashes; rewrite H3, andb_false_l, orb_false_r.
  destruct (package_throws e); [reflexivity|].
  exists (results (completed e doc)).
  destruct (completed_appends e doc) as [a [[Ra Fa] _]].
  rewrite Fa; cbn [hasFail init orb].
  destruct (existsb is_fail a) eqn:E; [exfalso|reflexivity].
  apply existsb_exists in E as [v [Hv Hf]].
  assert (Hin : In v (results (completed e doc))) by (rewrite Ra; exact Hv).
  assert (Hs : vstatus v = Fail) by (unfold is_fail in Hf; destruct (vstatus v); congruence).
  pose proof (fail_ids e doc v Hin Hs) as Hid.
  assert (Hd : In (vid v) (doc_ids doc)).
  { apply (proj1 (completed_ids e doc (vid v))); unfold ids; now apply in_map. }
  apply has_id_spec in Hd.
  simpl in Hid; destruct Hid as [H|[H|[H|[]]]]; rewrite <- H in Hd; congruence.
Qed.

Lemma only_three_checks_fail_witness :
  checklist_file env_demo = Some (CTValid doc_all) /\
  ((forall code rs, main env_demo = Exit code (Some rs) ->
     forall v, In v rs -> vstatus v = Fail ->
       In (vid v) ["test_exists"; "test_checks"; "sec_secrets"]%string) /\
   (has_id doc_all "test_exists" = false -> has_id doc_all "test_checks" = false ->
    has_id doc_all "sec_secrets" = false ->
    if package_throws env_demo then main env_demo = Uncaught "Error"
    else exists rs, main env_demo = Exit 0 (Some rs))).
Proof. split; [reflexivity|]. apply (only_three_checks_fail env_demo doc_all); reflexivity. Defined.

(** read_format: when the run completes, one verdict, Pass when
    .eslintrc, .eslintrc.js or .prettierrc exists at the root or
    package.json declares a truthy devDependencies.eslint or
    devDependencies.prettier, NeedsAttention otherwise; never Fail. *)
Theorem read_format_verdict_spec (e : env) (doc : ChecklistFile)
  (Hdoc : checklist_file e = Some (CTValid doc))
  (Hk : has_id doc "read_format" = true) :
  forall code rs, main e = Exit code (Some rs) ->
  exists v, verdicts_for "read_format" rs = [v] /\
    vstatus v =
      if exists_top e ".eslintrc" || exists_top e ".eslintrc.js" ||
         exists_top e ".prettierrc" || dev_declared e "eslint" || dev_declared e "prettier"
      then Pass else NeedsAttention.
Proof.
  intros code rs Hrun; rewrite (main_valid e doc Hdoc) in Hrun.
  destruct (crashes e doc); [discriminate|].
  injection Hrun as _ <-.
  exists (read_format_verdict e); split.
  { rewrite (completed_verdicts_for e doc "read_format" (read_format_verdict e)).
    - unfold opt_verdict; now rewrite Hk.
    - now rewrite vid_read_format.
    - simpl; tauto. }
  unfold read_format_verdict; rewrite <- hasFormat_spec.
  destruct (hasFormat e); reflexivity.
Qed.

Lemma read_format_verdict_spec_witness :
  checklist_file env_demo = Some (CTValid doc_all) /\
  has_id doc_all "read_format" = true /\
  forall code rs, main env_demo = Exit code (Some rs) ->
  exists v, verdicts_for "read_format" rs = [v] /\
    vstatus v =
      if exists_top env_demo ".eslintrc" || exists_top env_demo ".eslintrc.js" ||
         exists_top env_demo ".prettierrc" || dev_declared env_demo "eslint" ||
         dev_declared env_demo "prettier"
      then Pass else NeedsAttention.
Proof.
  split; [reflexivity|]; split; [reflexivity|].
  apply (read_format_verdict_spec env_demo doc_all); reflexivity.
Defined.

(** A file whose read throws is skipped without effect on the scan: adding
    one anywhere among the root's entries leaves the flagged paths as they
    are. *)
Theorem unreadable_file_not_flagged (e : env) (ts1 ts2 : list node) (n : string) :
  suspicious (with_tree e (ts1 ++ File n None :: ts2)) = suspicious (with_tree e (ts1 ++ ts2)).
Proof.
  unfold suspicious, with_tree, walk; cbn [root tree].
  rewrite !walk_seq_app.
  destruct (walk_seq (walk_node (root e)) ts1) as [a [|]]; [reflexivity|].
  cbn [walk_seq walk_node].
  destruct (walk_seq (walk_node (root e)) ts2) as [b th]; cbn [fst].
  rewrite !filter_app; cbn [filter app].
  assert (H : flagged (join (root e) n, None) = false)
    by (unfold flagged; split_ifs; reflexivity).
  now rewrite H.
Qed.

(** Every walked path begins with the root path, so when the root path
    itself contains .git or node_modules (a checkout in a directory named
    app.git, say) the secret scan flags nothing, and a run that completes
    reports sec_secrets as Pass, whatever the files hold. *)
Theorem root_path_disables_secret_scan (e : env) (doc : ChecklistFile)
  (Hroot : includes (t (root e)) (t ".git") = true \/
           includes (t (root e)) (t "node_modules") = true) :
  suspicious e = [] /\
  (checklist_file e = Some (CTValid doc) -> has_id doc "sec_secrets" = true ->
   forall code rs, main e = Exit code (Some rs) ->
   verdicts_for "sec_secrets" rs =
     [{| vid := "sec_secrets"; vstatus := Pass;
         vreason := "No obvious hardcoded secrets found." |}]).
Proof.
  assert (Hnil : suspicious e = []).
  { destruct (suspicious e) as [|fp r] eqn:E; [reflexivity|exfalso].
    assert (H : In fp (suspicious e)) by (rewrite E; now left).
    apply in_suspicious in H as [c [Hin Hf]].
    destruct (walk_prefix _ _ _ _ Hin) as [s Hs].
    unfold flagged, excluded_path in Hf; cbv iota in Hf; rewrite Hs in Hf.
    destruct Hroot as [H|H]; rewrite (includes_app_l _ s _ H) in Hf;
      rewrite ?orb_true_r in Hf; discriminate. }
  split; [exact Hnil|]; intros Hdoc Hk code rs Hrun.
  rewrite (main_valid e doc Hdoc) in Hrun.
  destruct (crashes e doc); [discriminate|].
  injection Hrun as _ <-.
  rewrite (completed_verdicts_for e doc "sec_secrets" (sec_secrets_verdict e)).
  - unfold opt_verdict, sec_secrets_verdict; now rewrite Hk, Hnil.
  - now rewrite vid_sec_secrets.
  - simpl; tauto.
Qed.

Lemma root_path_disables_secret_scan_witness :
  (includes (t (root env_git_root)) (t ".git") = true \/
   includes (t (root env_git_root)) (t "node_modules") = true) /\
  suspicious env_git_root = [] /\
  (checklist_file env_git_root = Some (CTValid (one_category ["sec_secrets"%string])) ->
   has_id (one_category ["sec_secrets"%string]) "sec_secrets" = true ->
   forall code rs, main env_git_root = Exit code (Some rs) ->
   verdicts_for "sec_secrets" rs =
     [{| vid := "sec_secrets"; vstatus := Pass;
         vreason := "No obvious hardcoded secrets found." |}]).
Proof.
  assert (H : includes (t (root env_git_root)) (t ".git") = true \/
              includes (t (root env_git_root)) (t "node_modules") = true)
    by (left; vm_compute; reflexivity).
  split; [exact H|].
  exact (root_path_disables_secret_scan env_git_root (one_category ["sec_secrets"%string]) H).
Defined.

End Extras.

Module CommandExtras.
Import Extension Loader Handler CommandFacts Scenarios.

(** The review command sends at most one request, and only when an editor
    is open, the checklist loads from the first workspace folder and the
    credential is set and non-empty.  The request bears the credential and
    a prompt holding the editor's whole text (not the 200-character
    preview) and the serialized checklist. *)
Theorem review_request_gate (stringify : ChecklistFile -> text)
  (json_parse : text -> option answer) (e1 e2 e3 : text) (editor : option document)
  (folders : list string) (read : string -> option ChecklistText)
  (apiKey : option text) (fetch : request -> response) :
  let u := runChecklist stringify json_parse e1 e2 e3 editor folders read apiKey fetch in
  List.length (requests u) <= 1 /\
  forall r, In r (requests u) ->
    exists d doc key, editor = Some d /\ loadChecklist folders read = Some doc /\
      apiKey = Some key /\ key <> [] /\
      req_url r = t "https://api.openai.com/v1/chat/completions" /\
      req_authorization r = t "Bearer " ++ key /\
      req_prompt r = build_prompt (getText d) (stringify doc) /\
      infix (getText d) (req_prompt r) /\ infix (stringify doc) (req_prompt r).
Proof.
  cbv zeta; rewrite runChecklist_requests.
  destruct editor as [d|]; [|split; [simpl; lia | intros r []]].
  destruct (loadChecklist folders read) as [doc|] eqn:Hl; [|split; [simpl; lia | intros r []]].
  rewrite runLLMReview_requests.
  destruct apiKey as [[|c k]|];
    [split; [simpl; lia | intros r []] | | split; [simpl; lia | intros r []]].
  split; [simpl; lia|].
  intros r [<-|[]]; exists d, doc, (c :: k); cbn [req_url req_authorization req_prompt].
  destruct (build_prompt_infix (getText d) (stringify doc)) as [I1 I2].
  do 7 (split; [first [reflexivity | exact Hl | discriminate]|]).
  split; assumption.
Qed.

(** Every run of the review command shows exactly one notification; it is
    the completion message exactly when an editor is open, the checklist
    loads, and the judge's parsed answer is iterable, with every element
    neither null nor undefined and every field of it convertible to a
    string by the template literal. *)
Theorem one_notification_per_run (stringify : ChecklistFile -> text)
  (json_parse : text -> option answer) (e1 e2 e3 : text) (editor : option document)
  (folders : list string) (read : string -> option ChecklistText)
  (apiKey : option text) (fetch : request -> response) :
  exists n, notices (runChecklist stringify json_parse e1 e2 e3 editor folders read apiKey fetch) = [n] /\
    (n = Info completed <->
     exists d doc reqs l, editor = Some d /\ loadChecklist folders read = Some doc /\
       runLLMReview answer json_parse apiKey (getText d) (stringify doc) fetch =
         (reqs, inl (Elements l)) /\
       Forall (fun o => exists r line, o = Some r /\ render r = Some line) l).
Proof.
  unfold runChecklist.
  destruct editor as [d|].
  2: { exists (Info no_editor); split; [reflexivity|]; split.
    - intros H; injection H as H; vm_compute in H; discriminate.
    - intros (d & _ & _ & _ & H & _); discriminate. }
  destruct (loadChecklist folders read) as [doc|] eqn:Hl.
  2: { exists (ShowError no_checklist); split; [reflexivity|]; split;
       [discriminate | intros (d' & doc' & _ & _ & _ & H & _); congruence]. }
  destruct (runLLMReview answer json_parse apiKey (getText d) (stringify doc) fetch)
    as [reqs out] eqn:E.
  destruct out as [[|l]|msg].
  - exists (ShowError review_failed); split; [reflexivity|]; split; [discriminate|].
    intros (d' & doc' & reqs' & l' & [= <-] & [= <-] & H & _); congruence.
  - destruct (render_results l) as [ls err] eqn:R.
    assert (Hbad : err <> None ->
                   ~ exists d' doc' reqs' l', Some d = Some d' /\ Some doc = Some doc' /\
                       runLLMReview answer json_parse apiKey (getText d') (stringify doc') fetch =
                         (reqs', inl (Elements l')) /\
                       Forall (fun o => exists r line, o = Some r /\ render r = Some line) l').
    { intros Herr (d' & doc' & reqs' & l' & [= <-] & [= <-] & H & Hn).
      rewrite E in H; injection H as <- <-.
      apply render_results_ok in Hn; rewrite R in Hn; contradiction. }
    destruct err as [[|]|].
    + exists (ShowError review_failed); split; [reflexivity|]; split; [discriminate|].
      intros H; exfalso; exact (Hbad ltac:(discriminate) H).
    + exists (ShowError review_failed); split; [reflexivity|]; split; [discriminate|].
      intros H; exfalso; exact (Hbad ltac:(discriminate) H).
    + exists (Info completed); split; [reflexivity|]; split; [intros _|reflexivity].
      exists d, doc, reqs, l; repeat split; auto.
      apply render_results_ok; now rewrite R.
  - exists (ShowError review_failed); split; [reflexivity|]; split; [discriminate|].
    intros (d' & doc' & reqs' & l' & [= <-] & [= <-] & H & _); congruence.
Qed.

(** The command writes to an output channel exactly when an editor is open
    and the checklist loads; the transcript then opens with the fixed
    header: the file path, the serialized checklist and the first 200
    characters of the text. *)
Theorem channel_written_iff_checklist (stringify : ChecklistFile -> text)
  (json_parse : text -> option answer) (e1 e2 e3 : text) (editor : option document)
  (folders : list string) (read : string -> option ChecklistText)
  (apiKey : option text) (fetch : request -> response) :
  let u := runChecklist stringify json_parse e1 e2 e3 editor folders read apiKey fetch in
  (channel u <> [] <->
   exists d doc, editor = Some d /\ loadChecklist folders read = Some doc) /\
  (forall d doc, editor = Some d -> loadChecklist folders read = Some doc ->
   exists rest, channel u = header (fsPath d) (getText d) (stringify doc) ++ rest).
Proof.
  cbv zeta; unfold runChecklist.
  destruct editor as [d|].
  2: { split; [split; [intros H; now contradiction H | intros (d & _ & H & _); discriminate]
             | intros d doc H; discriminate]. }
  destruct (loadChecklist folders read) as [doc|] eqn:Hl.
  2: { split; [split; [intros H; now contradiction H | intros (d' & doc & _ & H); discriminate]
             | intros d' doc _ H; discriminate]. }
  assert (Hh : forall rest, header (fsPath d) (getText d) (stringify doc) ++ rest <> [])
    by (intros rest; discriminate).
  split.
  - split; [intros _; eauto|intros _].
    destruct (runLLMReview _ _ _ _ _ _) as [reqs [[|l]|msg]];
      [apply Hh | destruct (render_results l) as [ls [[|]|]]; apply Hh | apply Hh].
  - intros d' doc' [= <-] [= <-].
    destruct (runLLMReview _ _ _ _ _ _) as [reqs [[|l]|msg]];
      [| destruct (render_results l) as [ls [[|]|]] |]; eexists; reflexivity.
Qed.

(** When the endpoint answers the request with a non-ok status, the
    command shows the failure notification, and the transcript ends with
    one line carrying the status and the raw body of the answer. *)
Theorem http_error_transcript (stringify : ChecklistFile -> text)
  (json_parse : text -> option answer) (e1 e2 e3 : text) (d : document)
  (folders : list string) (read : string -> option ChecklistText)
  (doc : ChecklistFile) (key : text) (fetch : request -> response)
  (Hdoc : loadChecklist folders read = Some doc) (Hkey : key <> [])
  (Hnok : resp_ok (fetch {| req_url := t "https://api.openai.com/v1/chat/completions";
                            req_authorization := t "Bearer " ++ key;
                            req_prompt := build_prompt (getText d) (stringify doc) |}) = false) :
  let req := {| req_url := t "https://api.openai.com/v1/chat/completions";
                req_authorization := t "Bearer " ++ key;
                req_prompt := build_prompt (getText d) (stringify doc) |} in
  let u := runChecklist stringify json_parse e1 e2 e3 (Some d) folders read (Some key) fetch in
  notices u = [ShowError review_failed] /\ requests u = [req] /\
  channel u = header (fsPath d) (getText d) (stringify doc) ++
                [t "LLM error: " ++ t "Error: " ++ t "OpenAI API error: " ++
                 resp_status (fetch req) ++ t " " ++ resp_body (fetch req)].
Proof.
  cbv zeta; unfold runChecklist; rewrite Hdoc.
  destruct key as [|c k]; [contradiction|].
  unfold runLLMReview; cbv zeta; rewrite Hnok; cbn [negb].
  repeat split; now rewrite app_nil_l.
Qed.

Lemma http_error_transcript_witness :
  Loader.loadChecklist ["/w"%string] read_doc_all = Some doc_all /\ t "k" <> [] /\
  resp_ok (answer_with false "401"
             {| req_url := t "https://api.openai.com/v1/chat/completions";
                req_authorization := t "Bearer " ++ t "k";
                req_prompt := build_prompt (getText editor_doc) (stringify_stub doc_all) |}) = false /\
  (let req := {| req_url := t "https://api.openai.com/v1/chat/completions";
                 req_authorization := t "Bearer " ++ t "k";
                 req_prompt := build_prompt (getText editor_doc) (stringify_stub doc_all) |} in
   let u := runChecklist stringify_stub (fun _ => None) [] [] [] (Some editor_doc) ["/w"%string]
              read_doc_all (Some (t "k")) (answer_with false "401") in
   notices u = [ShowError review_failed] /\ requests u = [req] /\
   channel u = header (fsPath editor_doc) (getText editor_doc) (stringify_stub doc_all) ++
                 [t "LLM error: " ++ t "Error: " ++ t "OpenAI API error: " ++
                  resp_status (answer_with false "401" req) ++ t " " ++
                  resp_body (answer_with false "401" req)]).
Proof.
  split; [reflexivity|]; split; [discriminate|]; split; [reflexivity|].
  apply (http_error_transcript stringify_stub (fun _ => None) [] [] [] editor_doc ["/w"%string]
           read_doc_all doc_all (t "k") (answer_with false "401"));
    [reflexivity | discriminate | reflexivity].
Defined.

(** A null or undefined element in the judge's answer aborts the loop:
    the lines of the elements before it (all printable) stay in the
    transcript, followed by the TypeError, and the failure notification is
    shown. *)
Theorem null_element_partial_transcript (stringify : ChecklistFile -> text)
  (json_parse : text -> option answer) (e1 e2 e3 : text) (d : document)
  (folders : list string) (read : string -> option ChecklistText)
  (doc : ChecklistFile) (apiKey : option text) (fetch : request -> response)
  (reqs : list request) (rs : list result_item) (lines : list text)
  (rest : list (option result_item))
  (Hdoc : loadChecklist folders read = Some doc)
  (Hlines : map render rs = map Some lines)
  (Hans : runLLMReview answer json_parse apiKey (getText d) (stringify doc) fetch =
          (reqs, inl (Elements (map Some rs ++ None :: rest)))) :
  let u := runChecklist stringify json_parse e1 e2 e3 (Some d) folders read apiKey fetch in
  notices u = [ShowError review_failed] /\ requests u = reqs /\
  channel u = header (fsPath d) (getText d) (stringify doc) ++
                [[]; results_title] ++ lines ++ [t "LLM error: " ++ e2].
Proof.
  cbv zeta; unfold runChecklist; rewrite Hdoc, Hans, (render_results_prefix rs lines rest Hlines).
  repeat split; now rewrite <- app_assoc.
Qed.

Lemma null_element_partial_transcript_witness :
  Loader.loadChecklist ["/w"%string] read_doc_all = Some doc_all /\
  map render [verdict_item] = map Some [verdict_line] /\
  runLLMReview answer parse_null_tail (Some (t "k")) (getText editor_doc)
    (stringify_stub doc_all) (answer_with true "200") =
    (fst (runLLMReview answer parse_null_tail (Some (t "k")) (getText editor_doc)
            (stringify_stub doc_all) (answer_with true "200")),
     inl (Elements (map Some [verdict_item] ++ None :: []))) /\
  (let u := runChecklist stringify_stub parse_null_tail [] (t "TypeError") []
              (Some editor_doc) ["/w"%string] read_doc_all (Some (t "k"))
              (answer_with true "200") in
   notices u = [ShowError review_failed] /\
   requests u = fst (runLLMReview answer parse_null_tail (Some (t "k")) (getText editor_doc)
                       (stringify_stub doc_all) (answer_with true "200")) /\
   channel u = header (fsPath editor_doc) (getText editor_doc) (stringify_stub doc_all) ++
                 [[]; results_title] ++ [verdict_line] ++ [t "LLM error: " ++ t "TypeError"]).
Proof.
  split; [reflexivity|]; split; [vm_compute; reflexivity|];
    split; [vm_compute; reflexivity|].
  apply (null_element_partial_transcript stringify_stub parse_null_tail [] (t "TypeError") []
           editor_doc ["/w"%string] read_doc_all doc_all (Some (t "k")) (answer_with true "200")
           (fst (runLLMReview answer parse_null_tail (Some (t "k")) (getText editor_doc)
                   (stringify_stub doc_all) (answer_with true "200")))
           [verdict_item] [verdict_line] []);
    [reflexivity | vm_compute; reflexivity | vm_compute; reflexivity].
Defined.

(** An element with a field the template literal cannot convert to a
    string (an object whose [toString] is not a function, a Symbol) aborts
    the loop: the lines of the elements before it stay in the transcript,
    followed by the TypeError, and the failure notification is shown. *)
Theorem unconvertible_field_transcript (stringify : ChecklistFile -> text)
  (json_parse : text -> option answer) (e1 e2 e3 : text) (d : document)
  (folders : list string) (read : string -> option ChecklistText)
  (doc : ChecklistFile) (apiKey : option text) (fetch : request -> response)
  (reqs : list request) (rs : list result_item) (lines : list text)
  (r : result_item) (rest : list (option result_item))
  (Hdoc : loadChecklist folders read = Some doc)
  (Hlines : map render rs = map Some lines) (Hr : render r = None)
  (Hans : runLLMReview answer json_parse apiKey (getText d) (stringify doc) fetch =
          (reqs, inl (Elements (map Some rs ++ Some r :: rest)))) :
  let u := runChecklist stringify json_parse e1 e2 e3 (Some d) folders read apiKey fetch in
  notices u = [ShowError review_failed] /\ requests u = reqs /\
  channel u = header (fsPath d) (getText d) (stringify doc) ++
                [[]; results_title] ++ lines ++ [t "LLM error: " ++ e3].
Proof.
  cbv zeta; unfold runChecklist.
  rewrite Hdoc, Hans, (render_results_unconvertible rs lines r rest Hlines Hr).
  repeat split; now rewrite <- app_assoc.
Qed.

Lemma unconvertible_field_transcript_witness :
  Loader.loadChecklist ["/w"%string] read_doc_all = Some doc_all /\
  map render [verdict_item] = map Some [verdict_line] /\ render unprintable_item = None /\
  runLLMReview answer parse_unprintable (Some (t "k")) (getText editor_doc)
    (stringify_stub doc_all) (answer_with true "200") =
    (fst (runLLMReview answer parse_unprintable (Some (t "k")) (getText editor_doc)
            (stringify_stub doc_all) (answer_with true "200")),
     inl (Elements (map Some [verdict_item] ++ Some unprintable_item :: []))) /\
  (let u := runChecklist stringify_stub parse_unprintable [] [] (t "TypeError")
              (Some editor_doc) ["/w"%string] read_doc_all (Some (t "k"))
              (answer_with true "200") in
   notices u = [ShowError review_failed] /\
   requests u = fst (runLLMReview answer parse_unprintable (Some (t "k")) (getText editor_doc)
                       (stringify_stub doc_all) (answer_with true "200")) /\
   channel u = header (fsPath editor_doc) (getText editor_doc) (stringify_stub doc_all) ++
                 [[]; results_title] ++ [verdict_line] ++ [t "LLM error: " ++ t "TypeError"]).
Proof.
  split; [reflexivity|]; split; [vm_compute; reflexivity|]; split; [reflexivity|];
    split; [vm_compute; reflexivity|].
  apply (unconvertible_field_transcript stringify_stub parse_unprintable [] [] (t "TypeError")
           editor_doc ["/w"%string] read_doc_all doc_all (Some (t "k")) (answer_with true "200")
           (fst (runLLMReview answer parse_unprintable (Some (t "k")) (getText editor_doc)
                   (stringify_stub doc_all) (answer_with true "200")))
           [verdict_item] [verdict_line] unprintable_item []);
    [reflexivity | vm_compute; reflexivity | reflexivity | vm_compute; reflexivity].
Defined.

End CommandExtras.
